(** * vRvoice: the realtime voice-command pipeline, embedded and verified

  The development follows the Python sources:
  - [src/vred_listener.py]: the command dispatch server ([VREDHandler.handle])
    and the main-thread executor ([_dispatch_actions], [_derive_vset_name]);
  - [src/modules/vred_client.py]: the dispatch client ([send_activate_vset]);
  - [src/modules/nlu_engine.py]: the intent router ([semantic_match],
    [get_command]);
  - [src/main.py]: the bounded audio queue ([audio_callback]) and the chunk
    feed ([chunk_generator]).

  Python values are modelled by an inductive type, Python exceptions by an
  explicit outcome, module globals by explicit state, and the library
  functions the sources call (codecs, the actuator API, the models) by
  parameters. *)

From Stdlib Require Import Ascii String QArith.
From stdpp Require Import base option list strings pretty.

Set Warnings "-register-all".
Set Default Proof Using "Type".

Local Open Scope string_scope.
Local Open Scope list_scope.

(** ** Python values *)

Module Py.

(** A [bytes] object; a [str] is a [string] as well. *)
Definition bytes := string.

(** The values [json.loads] can produce.  A float is kept only up to what the
    sources observe of it, whether it is non-zero (its truth value). *)
Inductive value : Type :=
| VNone
| VBool (b : bool)
| VInt (z : Z)
| VFloat (nonzero : bool)
| VStr (s : string)
| VList (l : list value)
| VDict (d : list (string * value)).

(** The line feed. *)
Definition nl : string := String "010" "".

(** A [dict] with [str] keys, in insertion order. *)
Definition dict := list (string * value).

(** [bool(v)] *)
Definition truthy (v : value) : bool :=
  match v with
  | VNone => false
  | VBool b => b
  | VInt z => negb (Z.eqb z 0)
  | VFloat nz => nz
  | VStr s => negb (String.eqb s "")
  | VList l => match l with [] => false | _ => true end
  | VDict d => match d with [] => false | _ => true end
  end.

(** [d.get(k)]: the value bound to [k], [None] when there is none. *)
Fixpoint get (d : dict) (k : string) : value :=
  match d with
  | [] => VNone
  | (k', v) :: d' => if String.eqb k' k then v else get d' k
  end.

(** [k in d] *)
Fixpoint contains (d : dict) (k : string) : bool :=
  match d with
  | [] => false
  | (k', _) :: d' => if String.eqb k' k then true else contains d' k
  end.

(** [v == s] for a [str] [s]: only an equal [str] compares equal. *)
Definition eq_str (v : value) (s : string) : bool :=
  match v with
  | VStr s' => String.eqb s' s
  | _ => false
  end.

(** [v or ""] *)
Definition or_empty (v : value) : value :=
  if truthy v then v else VStr "".

(** The receiver of [.strip()]: a [str] has the method, any other value
    raises [AttributeError] ([None] here). *)
Definition as_str (v : value) : option string :=
  match v with
  | VStr s => Some s
  | _ => None
  end.

(** The library functions the sources call. *)
Class Lib := {
  (** [b.decode("utf-8")], [None] for [UnicodeDecodeError] *)
  utf8_decode : bytes -> option string;
  (** [s.encode("utf-8")] *)
  utf8_encode : string -> bytes;
  (** [s.strip()] *)
  strip : string -> string;
  (** [json.loads(s)], [None] for [JSONDecodeError] *)
  json_loads : string -> option value;
  (** [json.dumps(v)] *)
  json_dumps : value -> string;
}.

End Py.

Import Py.

(** ** A reference instance of the library, for 7-bit text

    The instance computes what CPython computes on 7-bit input without
    [\u] escapes; it is used to evaluate the models on concrete messages.
    The theorems below hold for every instance. *)

Module Ref.

Definition is_space (c : ascii) : bool :=
  let n := nat_of_ascii c in
  (((9 <=? n) && (n <=? 13)) || ((28 <=? n) && (n <=? 32)))%nat.

Fixpoint lstrip (s : string) : string :=
  match s with
  | String c r => if is_space c then lstrip r else s
  | EmptyString => EmptyString
  end.

Fixpoint rstrip (s : string) : string :=
  match s with
  | String c r =>
      match rstrip r with
      | EmptyString => if is_space c then EmptyString else String c EmptyString
      | r' => String c r'
      end
  | EmptyString => EmptyString
  end.

Definition strip (s : string) : string := rstrip (lstrip s).

Fixpoint all_7bit (s : string) : bool :=
  match s with
  | String c r => (nat_of_ascii c <? 128)%nat && all_7bit r
  | EmptyString => true
  end.

Definition utf8_decode (b : bytes) : option string :=
  if all_7bit b then Some b else None.

Definition utf8_encode (s : string) : bytes := s.

(** *** [json.loads] *)

Definition is_json_ws (c : ascii) : bool :=
  match c with
  | " " | "009" | "010" | "013" => true
  | _ => false
  end%char.

Fixpoint skip_ws (s : string) : string :=
  match s with
  | String c r => if is_json_ws c then skip_ws r else s
  | EmptyString => EmptyString
  end.

Definition is_digit (c : ascii) : bool :=
  let n := nat_of_ascii c in ((48 <=? n) && (n <=? 57))%nat.

(** The longest prefix of digits, and the rest. *)
Fixpoint digits (s : string) : string * string :=
  match s with
  | String c r =>
      if is_digit c then let '(d, r') := digits r in (String c d, r') else (EmptyString, s)
  | EmptyString => (EmptyString, EmptyString)
  end.

Fixpoint to_Z (acc : Z) (d : string) : Z :=
  match d with
  | String c r => to_Z (10 * acc + Z.of_nat (nat_of_ascii c - 48)%nat) r
  | EmptyString => acc
  end.

Fixpoint has_nonzero (d : string) : bool :=
  match d with
  | String c r => negb (Ascii.eqb c "0") || has_nonzero r
  | EmptyString => false
  end.

(** A number: an optional sign, then a single zero or digits that start with
    a non-zero one, then optionally a point with digits, then optionally an
    exponent with digits.  An [int] without fraction and exponent, a [float]
    otherwise. *)
Definition number (s : string) : option (value * string) :=
  let '(neg, s1) := match s with String "-" r => (true, r) | _ => (false, s) end in
  let '(int, s2) :=
    match s1 with
    | String "0" r => ("0", r)
    | _ => digits s1
    end in
  if String.eqb int "" then None
  else
    let '(frac, s3) :=
      match s2 with
      | String "." r =>
          let '(d, r') := digits r in
          if String.eqb d "" then ("", s2) else (d, r')
      | _ => ("", s2)
      end in
    let '(is_exp, s4) :=
      match s3 with
      | String ("e" | "E") r =>
          let r1 := match r with String ("+" | "-") r1 => r1 | _ => r end in
          let '(d, r') := digits r1 in
          if String.eqb d "" then (false, s3) else (true, r')
      | _ => (false, s3)
      end in
    if String.eqb frac "" && negb is_exp
    then Some (VInt (if neg then - to_Z 0 int else to_Z 0 int), s4)
    else Some (VFloat (has_nonzero int || has_nonzero frac), s4).

(** The characters after the opening quote, up to the closing one. *)
Fixpoint scanstring (s : string) : option (string * string) :=
  match s with
  | String "034" r => Some ("", r)
  | String "\" (String e r) =>
      let esc (c : ascii) := '(t, r') ← scanstring r; Some (String c t, r') in
      match e with
      | "034" => esc "034"
      | "\" => esc "\"
      | "/" => esc "/"
      | "b" => esc "008"
      | "f" => esc "012"
      | "n" => esc "010"
      | "r" => esc "013"
      | "t" => esc "009"
      | _ => None
      end%char
  | String c r =>
      if (nat_of_ascii c <? 32)%nat then None
      else '(t, r') ← scanstring r; Some (String c t, r')
  | EmptyString => None
  end.

(** [d[k] = v] *)
Fixpoint set (d : dict) (k : string) (v : value) : dict :=
  match d with
  | [] => [(k, v)]
  | (k', v') :: d' => if String.eqb k' k then (k, v) :: d' else (k', v') :: set d' k v
  end.

Definition literal (lit : string) (v : value) (s : string) : option (value * string) :=
  if String.prefix lit s
  then Some (v, String.substring (String.length lit) (String.length s - String.length lit)%nat s)
  else None.

Fixpoint scan (fuel : nat) (s : string) : option (value * string) :=
  match fuel with
  | O => None
  | S fuel =>
      match s with
      | String "034" r => '(t, r') ← scanstring r; Some (VStr t, r')
      | String "{" r =>
          match skip_ws r with
          | String "}" r' => Some (VDict [], r')
          | r1 => members fuel [] r1
          end
      | String "[" r =>
          match skip_ws r with
          | String "]" r' => Some (VList [], r')
          | r1 => elements fuel [] r1
          end
      | String "n" _ => literal "null" VNone s
      | String "t" _ => literal "true" (VBool true) s
      | String "f" _ => literal "false" (VBool false) s
      | String "N" _ => literal "NaN" (VFloat true) s
      | String "I" _ => literal "Infinity" (VFloat true) s
      | String "-" (String "I" _) => literal "-Infinity" (VFloat true) s
      | _ => number s
      end
  end
with members (fuel : nat) (acc : dict) (s : string) : option (value * string) :=
  match fuel with
  | O => None
  | S fuel =>
      match s with
      | String "034" r =>
          '(k, r1) ← scanstring r;
          match skip_ws r1 with
          | String ":" r2 =>
              '(v, r3) ← scan fuel (skip_ws r2);
              let acc' := set acc k v in
              match skip_ws r3 with
              | String "}" r4 => Some (VDict acc', r4)
              | String "," r4 => members fuel acc' (skip_ws r4)
              | _ => None
              end
          | _ => None
          end
      | _ => None
      end
  end
with elements (fuel : nat) (acc : list value) (s : string) : option (value * string) :=
  match fuel with
  | O => None
  | S fuel =>
      '(v, r1) ← scan fuel s;
      let acc' := acc ++ [v] in
      match skip_ws r1 with
      | String "]" r2 => Some (VList acc', r2)
      | String "," r2 => elements fuel acc' (skip_ws r2)
      | _ => None
      end
  end.

Definition json_loads (s : string) : option value :=
  '(v, r) ← scan (S (String.length s)) (skip_ws s);
  if String.eqb (skip_ws r) "" then Some v else None.

(** *** [json.dumps] *)

Definition quote : string := String "034" "".

Definition hex (n : nat) : string :=
  String.substring n 1 "0123456789abcdef".

Definition escape (c : ascii) : string :=
  let n := nat_of_ascii c in
  if Ascii.eqb c "034" then "\" ++ quote
  else if Ascii.eqb c "\" then "\\"
  else if Ascii.eqb c "010" then "\n"
  else if Ascii.eqb c "013" then "\r"
  else if Ascii.eqb c "009" then "\t"
  else if Ascii.eqb c "008" then "\b"
  else if Ascii.eqb c "012" then "\f"
  else if ((32 <=? n) && (n <=? 126))%nat then String c ""
  else "\u00" ++ hex (n / 16) ++ hex (n mod 16).

Fixpoint escaped (s : string) : string :=
  match s with
  | String c r => escape c ++ escaped r
  | EmptyString => ""
  end.

Definition quoted (s : string) : string := quote ++ escaped s ++ quote.

(** A float, kept only up to its truth value, is written [0.0] or [1.0]; the
    sources never dump one. *)
Fixpoint json_dumps (v : value) : string :=
  match v with
  | VNone => "null"
  | VBool true => "true"
  | VBool false => "false"
  | VInt z => pretty z
  | VFloat nz => if nz then "1.0" else "0.0"
  | VStr s => quoted s
  | VList l =>
      "[" ++ (fix items (l : list value) : string :=
                match l with
                | [] => ""
                | [x] => json_dumps x
                | x :: r => (json_dumps x ++ ", " ++ items r)%string
                end) l ++ "]"
  | VDict d =>
      "{" ++ (fix items (d : list (string * value)) : string :=
                match d with
                | [] => ""
                | [(k, x)] => (quoted k ++ ": " ++ json_dumps x)%string
                | (k, x) :: r => (quoted k ++ ": " ++ json_dumps x ++ ", " ++ items r)%string
                end) d ++ "}"
  end.

#[export] Instance lib : Lib := {|
  Py.utf8_decode := utf8_decode;
  Py.utf8_encode := utf8_encode;
  Py.strip := strip;
  Py.json_loads := json_loads;
  Py.json_dumps := json_dumps;
|}.

End Ref.

(** ** The main-thread executor ([src/vred_listener.py]) *)

Module Executor.

(** What [_dispatch_actions] prints. *)
Inductive printed : Type :=
| MissingVsetName                                  (* "[vred] Missing vset_name." *)
| Activating (vset_name : string)                  (* "[vred] Activating Variant Set: '...'" *)
| ErrorActivating (vset_name : string) (e : string)(* "[vred] Error activating VSet '...': ..." *)
| MissingName                                      (* "[vred] Missing 'name' in activate_pair." *)
| PairTo (group name vset_name : string)           (* "[vred] Pair -> group=..., name=... -> VSet=..." *)
| UnknownAction (act : value).                     (* "[vred] Unknown action: ..." *)

(** The globals the executor reads and writes, with the record of the calls
    made to the actuator API and of the lines printed. *)
Record state : Type := State {
  _command_queue : list dict;
  _last_activation : option string;
  api_calls : list string;
  stdout : list printed;
}.

Definition initial : state :=
  {| _command_queue := []; _last_activation := None; api_calls := []; stdout := [] |}.

(** The de-dup state is the name of the last call, and no call repeats the
    one before it. *)
Definition coherent (st : state) : Prop :=
  _last_activation st = last (api_calls st) /\
  forall i x y, api_calls st !! i = Some x -> api_calls st !! S i = Some y -> x <> y.

(** How one run of [_dispatch_actions] ends: the queue is empty
    ([queue.Empty], caught), or an exception leaves the function. *)
Inductive tick_end : Type :=
| QueueEmpty
| Escaped.

Section WithEnvironment.

Context `{L : Lib}.

(** The module constant [USE_GROUP_IN_VSET_NAME]. *)
Variable USE_GROUP_IN_VSET_NAME : bool.

(** The actuator API [vrVariants.selectVariantSet]: given the calls made
    before and the name, [None] when it returns and [Some e] when it
    raises [Exception(e)]. *)
Variable selectVariantSet : list string -> string -> option string.

Definition _derive_vset_name (group name : string) : string :=
  if USE_GROUP_IN_VSET_NAME && negb (String.eqb group "")
  then group ++ ": " ++ name
  else name.

(** The de-dup test, the update of [_last_activation] and the guarded
    call, as both activation branches have them; [line] is the line the
    branch prints before the call. *)
Definition activate (vset_name : string) (line : printed) (st : state) : state :=
  if bool_decide (_last_activation st = Some vset_name) then st
  else
    let called := api_calls st ++ [vset_name] in
    match selectVariantSet (api_calls st) vset_name with
    | None =>
        {| _command_queue := _command_queue st;
           _last_activation := Some vset_name;
           api_calls := called;
           stdout := stdout st ++ [line] |}
    | Some e =>
        {| _command_queue := _command_queue st;
           _last_activation := Some vset_name;
           api_calls := called;
           stdout := stdout st ++ [line; ErrorActivating vset_name e] |}
    end.

Definition say (line : printed) (st : state) : state :=
  {| _command_queue := _command_queue st;
     _last_activation := _last_activation st;
     api_calls := api_calls st;
     stdout := stdout st ++ [line] |}.

(** The body of the [while True] loop for one dequeued [action];
    [None] when an exception leaves the loop. *)
Definition loop_body (action : dict) (st : state) : option state :=
  let act := get action "action" in
  if eq_str act "activate_vset" then
    match as_str (or_empty (get action "vset_name")) with
    | None => None
    | Some s =>
        let vset_name := strip s in
        if String.eqb vset_name "" then Some (say MissingVsetName st)
        else Some (activate vset_name (Activating vset_name) st)
    end
  else if eq_str act "activate_pair" then
    match as_str (or_empty (get action "group")) with
    | None => None
    | Some g =>
        let group := strip g in
        match as_str (or_empty (get action "name")) with
        | None => None
        | Some n =>
            let name := strip n in
            if String.eqb name "" then Some (say MissingName st)
            else
              let vset_name := _derive_vset_name group name in
              Some (activate vset_name (PairTo group name vset_name) st)
        end
    end
  else if eq_str act "ping" then Some st
  else Some (say (UnknownAction act) st).

Definition with_queue (q : list dict) (st : state) : state :=
  {| _command_queue := q;
     _last_activation := _last_activation st;
     api_calls := api_calls st;
     stdout := stdout st |}.

(** [_dispatch_actions]: dequeue until [get_nowait] raises [queue.Empty]. *)
Fixpoint drain (q : list dict) (st : state) : tick_end * state :=
  match q with
  | [] => (QueueEmpty, with_queue [] st)
  | action :: q' =>
      match loop_body action (with_queue q' st) with
      | None => (Escaped, with_queue q' st)
      | Some st' => drain q' st'
      end
  end.

Definition _dispatch_actions (st : state) : tick_end * state :=
  drain (_command_queue st) st.

(** The actuator-facing name of an activation: the [vset_name] with which
    [loop_body] reaches its de-dup test, [None] when the action does not
    reach it. *)
Definition derived_name (action : dict) : option string :=
  let act := get action "action" in
  if eq_str act "activate_vset" then
    s ← as_str (or_empty (get action "vset_name"));
    if String.eqb (strip s) "" then None else Some (strip s)
  else if eq_str act "activate_pair" then
    g ← as_str (or_empty (get action "group"));
    n ← as_str (or_empty (get action "name"));
    if String.eqb (strip n) "" then None
    else Some (_derive_vset_name (strip g) (strip n))
  else None.

(** The calls to the actuator API that draining [q] from [st] adds up to. *)
Definition calls_after (q : list dict) (st : state) : list string :=
  api_calls (drain q st).2.

(** The handlers enqueue [q], then the timer runs [_dispatch_actions]. *)
Definition tick (st : state) (q : list dict) : state :=
  (_dispatch_actions (with_queue (_command_queue st ++ q) st)).2.

(** A run of the listener: what is enqueued before each run of the timer. *)
Definition ticks (qs : list (list dict)) (st : state) : state :=
  fold_left tick qs st.

(** The action reaches a [.strip()] on a value that is true and no [str]. *)
Definition malformed (action : dict) : Prop :=
  (eq_str (get action "action") "activate_vset" = true /\
   as_str (or_empty (get action "vset_name")) = None) \/
  (eq_str (get action "action") "activate_pair" = true /\
   (as_str (or_empty (get action "group")) = None \/
    as_str (or_empty (get action "name")) = None)).

End WithEnvironment.

End Executor.


(** ** The command dispatch server ([src/vred_listener.py]) *)

Module Server.

(** One connection: what was written to [wfile], a chunk per [write], and the
    shared [_command_queue] as this handler leaves it. *)
Record conn : Type := Conn {
  wfile : list bytes;
  _command_queue : list dict;
}.

(** How the [for] loop goes on after a line: to the next line, or to the
    outer [except Exception], which ends the handler. *)
Inductive flow : Type :=
| Next (c : conn)
| Raised (c : conn).

(** How [handle] ends. *)
Inductive ending : Type :=
| EndOfInput
| HandlerError.

(** The acknowledgments. *)
Definition ack_ok : value := VDict [("ok", VBool true)].
Definition ack_pong : value := VDict [("ok", VBool true); ("pong", VBool true)].
Definition ack_error (error : string) : value :=
  VDict [("ok", VBool false); ("error", VStr error)].

(** A connection on which nothing was written or enqueued. *)
Definition empty : conn := {| wfile := []; _command_queue := [] |}.

(** The connection [c] with what [d] holds added to it. *)
Definition extend (c d : conn) : conn :=
  {| wfile := wfile c ++ wfile d; _command_queue := _command_queue c ++ _command_queue d |}.

Definition extend_flow (c : conn) (f : flow) : flow :=
  match f with
  | Next d => Next (extend c d)
  | Raised d => Raised (extend c d)
  end.

(** The two shapes of action the handler builds: the action kind, and
    fields that are [str], the name not empty. *)
Definition from_handler (action : dict) : Prop :=
  (exists vset_name, vset_name <> "" /\
     action = [("action", VStr "activate_vset"); ("vset_name", VStr vset_name)]) \/
  (exists group name, name <> "" /\
     action = [("action", VStr "activate_pair"); ("group", VStr group); ("name", VStr name)]).

Section WithEnvironment.

Context `{L : Lib}.

(** The module constant [SHARED_SECRET]. *)
Variable SHARED_SECRET : option string.

Definition _enqueue_action (action : dict) (c : conn) : conn :=
  {| wfile := wfile c; _command_queue := _command_queue c ++ [action] |}.

Definition _send (obj : value) (c : conn) : conn :=
  {| wfile := wfile c ++ [utf8_encode (json_dumps obj ++ nl)];
     _command_queue := _command_queue c |}.

(** [SHARED_SECRET is not None and msg.get("token") != SHARED_SECRET] *)
Definition unauthorized (msg : dict) : bool :=
  match SHARED_SECRET with
  | Some secret => negb (eq_str (get msg "token") secret)
  | None => false
  end.

(** The part of the loop body after the line was decoded to [msg]; a [msg]
    that is no [dict] has no [get], and a field that is true and no [str]
    has no [strip]: both raise [AttributeError]. *)
Definition dispatch (msg : value) (c : conn) : flow :=
  match msg with
  | VDict msg =>
      if unauthorized msg then Next (_send (ack_error "unauthorized") c)
      else
        let action := get msg "action" in
        if eq_str action "activate_vset" then
          match as_str (or_empty (get msg "vset_name")) with
          | None => Raised c
          | Some s =>
              let vset_name := strip s in
              if String.eqb vset_name "" then Next (_send (ack_error "missing_vset_name") c)
              else
                Next (_send ack_ok
                        (_enqueue_action
                           [("action", VStr "activate_vset"); ("vset_name", VStr vset_name)] c))
          end
        else if eq_str action "activate_pair" then
          match as_str (or_empty (get msg "group")) with
          | None => Raised c
          | Some g =>
              let group := strip g in
              match as_str (or_empty (get msg "name")) with
              | None => Raised c
              | Some n =>
                  let name := strip n in
                  if String.eqb name "" then Next (_send (ack_error "missing_name") c)
                  else
                    Next (_send ack_ok
                            (_enqueue_action
                               [("action", VStr "activate_pair"); ("group", VStr group);
                                ("name", VStr name)] c))
              end
          end
        else if eq_str action "ping" then Next (_send ack_pong c)
        else Next (_send (ack_error "unknown_action") c)
  | _ => Raised c
  end.

(** The body of [for raw_line in self.rfile]. *)
Definition handle_line (raw_line : bytes) (c : conn) : flow :=
  match utf8_decode raw_line with
  | None => Next (_send (ack_error "invalid_json") c)
  | Some text =>
      let line := strip text in
      if String.eqb line "" then Next c
      else
        match json_loads line with
        | None => Next (_send (ack_error "invalid_json") c)
        | Some msg => dispatch msg c
        end
  end.

(** [VREDHandler.handle] on the lines [rfile] yields. *)
Fixpoint handle (rfile : list bytes) (c : conn) : ending * conn :=
  match rfile with
  | [] => (EndOfInput, c)
  | raw_line :: rest =>
      match handle_line raw_line c with
      | Next c' => handle rest c'
      | Raised c' => (HandlerError, c')
      end
  end.

(** What the handler writes for one line alone. *)
Definition written (raw_line : bytes) : list bytes :=
  match handle_line raw_line empty with
  | Next c | Raised c => wfile c
  end.

(** The line is empty once decoded and stripped. *)
Definition blank (raw_line : bytes) : bool :=
  match utf8_decode raw_line with
  | Some text => String.eqb (strip text) ""
  | None => false
  end.

(** The line is not JSON: its bytes do not decode, or its stripped text does
    not parse. *)
Definition undecodable (raw_line : bytes) : Prop :=
  match utf8_decode raw_line with
  | Some text => json_loads (strip text) = None
  | None => True
  end.

(** The line carries the JSON object [msg]. *)
Definition carries (raw_line : bytes) (msg : dict) : Prop :=
  exists text,
    utf8_decode raw_line = Some text /\ strip text <> "" /\
    json_loads (strip text) = Some (VDict msg).

(** The fields the handler strips are [str] or false. *)
Definition stripable (msg : dict) : Prop :=
  forall k, In k ["vset_name"; "group"; "name"] ->
    as_str (or_empty (get msg k)) <> None.

(** What the handler enqueues for one line alone. *)
Definition enqueued (raw_line : bytes) : list dict :=
  match handle_line raw_line empty with
  | Next c | Raised c => _command_queue c
  end.

(** The line carries JSON that is no object. *)
Definition carries_no_object (raw_line : bytes) : Prop :=
  exists text v,
    utf8_decode raw_line = Some text /\ strip text <> "" /\
    json_loads (strip text) = Some v /\ forall msg, v <> VDict msg.

(** A line the handler gets through: blank, not JSON, or an object with
    fields it can strip. *)
Definition regular (raw_line : bytes) : Prop :=
  blank raw_line = true \/ undecodable raw_line \/
  exists msg, carries raw_line msg /\ stripable msg.

End WithEnvironment.

End Server.


(** ** The command dispatch client ([src/modules/vred_client.py]) *)

Module Client.

(** The exceptions the socket calls raise. *)
Inductive exn : Type :=
| ConnectionRefusedError
| TimeoutError
| OSError (what : string).

(** What the network does to the connection the client opens: one of the
    socket calls raises, or [recv] returns the bytes [ack]. *)
Inductive net : Type :=
| ConnectFails (e : exn)
| SendFails (e : exn)
| ShutdownFails (e : exn)
| RecvFails (e : exn)
| Received (ack : bytes).

(** The socket calls the client makes. *)
Inductive call : Type :=
| create_connection (host : string) (port : Z)
| sendall (data : bytes)
| shutdown_wr
| recv
| close.

Inductive outcome : Type :=
| Returns (resp : value)
| Raises (e : exn).

Definition invalid_ack : value :=
  VDict [("ok", VBool false); ("error", VStr "invalid_ack")].

Section WithEnvironment.

Context `{L : Lib}.

(** [if token:] for the optional [str] argument. *)
Definition with_token (token : option string) (msg : dict) : dict :=
  match token with
  | Some t => if String.eqb t "" then msg else msg ++ [("token", VStr t)]
  | None => msg
  end.

(** [send_activate_vset]: the result and the socket calls made, in order.
    Leaving the [with] block, normally or by an exception, closes the
    socket. *)
Definition send_activate_vset (host : string) (port : Z) (group name : string)
    (token : option string) (n : net) : outcome * list call :=
  let msg :=
    with_token token
      [("action", VStr "activate_pair"); ("group", VStr group); ("name", VStr name)] in
  let data := utf8_encode (json_dumps (VDict msg) ++ nl) in
  let opened := [create_connection host port] in
  match n with
  | ConnectFails e => (Raises e, opened)
  | SendFails e => (Raises e, opened ++ [sendall data; close])
  | ShutdownFails e => (Raises e, opened ++ [sendall data; shutdown_wr; close])
  | RecvFails e => (Raises e, opened ++ [sendall data; shutdown_wr; recv; close])
  | Received ack =>
      let resp :=
        match utf8_decode ack with
        | None => invalid_ack
        | Some text =>
            match json_loads (strip text) with
            | None => invalid_ack
            | Some v => v
            end
        end in
      (Returns resp, opened ++ [sendall data; shutdown_wr; recv; close])
  end.

(** The message [send_activate_vset] builds, and the bytes it sends. *)
Definition request (group name : string) (token : option string) : dict :=
  with_token token
    [("action", VStr "activate_pair"); ("group", VStr group); ("name", VStr name)].

Definition request_line (group name : string) (token : option string) : bytes :=
  utf8_encode (json_dumps (VDict (request group name token)) ++ nl).

(** The number of connections opened. *)
Definition connections (calls : list call) : nat :=
  length (List.filter (fun c => match c with create_connection _ _ => true | _ => false end) calls).

(** A network or decode failure: a socket call raises, or the acknowledgment
    does not parse. *)
Definition failure (n : net) : Prop :=
  match n with
  | Received ack =>
      match utf8_decode ack with
      | Some text => json_loads (strip text) = None
      | None => True
      end
  | _ => True
  end.

End WithEnvironment.

End Client.

(** ** The intent router ([src/modules/nlu_engine.py])

    Scores are rationals: the router only compares them with its two
    thresholds and hands them on. *)

Module Router.

(** [l[i]] for an [int] [i]: a negative index counts from the end, [None]
    for [IndexError]. *)
Definition index {A} (l : list A) (i : Z) : option A :=
  if (0 <=? i)%Z then l !! Z.to_nat i
  else if (- Z.of_nat (length l) <=? i)%Z then l !! Z.to_nat (Z.of_nat (length l) + i)
  else None.

(** [d[k]], [None] for [KeyError]. *)
Fixpoint subscript (d : dict) (k : string) : option value :=
  match d with
  | [] => None
  | (k', v) :: d' => if String.eqb k' k then Some v else subscript d' k
  end.

(** The three components [get_command] returns: the command, the matched
    phrase and the score, each [None] when there is no match. *)
Definition answer : Type := value * option string * option Q.

Definition no_match : answer := (VNone, None, None).

Section WithEnvironment.

(** The catalog read from [commands/command_map.json]. *)
Variable COMMAND_MAP : dict.

(** [intent_classifier(text)[0]]: the top label and its score. *)
Variable intent_classifier : string -> string * Q.

(** [index.search] for [top_k = 1] on the normalized embedding of the text:
    [scores[0][0]] and [indices[0][0]]. *)
Variable index_search : string -> Q * Z.

Definition phrases : list string := map fst COMMAND_MAP.

Definition classify_intent (text : string) : string * Q :=
  intent_classifier text.

(** [None] when an exception leaves the function. *)
Definition semantic_match (text : string) : option (option string * option Q) :=
  let '(best_score, i) := index_search text in
  best_phrase ← index phrases i;
  if Qle_bool (65 # 100) best_score
  then Some (Some best_phrase, Some best_score)
  else Some (None, None).

(** [if match:] for a [str] or [None]. *)
Definition found (m : option string) : bool :=
  match m with
  | Some phrase => negb (String.eqb phrase "")
  | None => false
  end.

Definition get_command (text : string) : option answer :=
  let '(label, score) := classify_intent text in
  if Qle_bool (75 # 100) score && contains COMMAND_MAP label
  then v ← subscript COMMAND_MAP label; Some (v, Some label, Some score)
  else
    '(m, sim_score) ← semantic_match text;
    if found m
    then phrase ← m; v ← subscript COMMAND_MAP phrase; Some (v, m, sim_score)
    else Some no_match.

End WithEnvironment.

End Router.


(** ** The audio queue and the chunk feed ([src/main.py])

    The capture callback, the signal handler and the generator run on
    different threads over the shared [audio_queue] and [shutdown_event]; the
    queue and the event are locked objects, so a run is an interleaving of
    their operations. *)

Module Audio.

(** [audio_queue = queue.Queue(maxsize=50)] *)
Definition maxsize : nat := 50.

(** What goes to [sys.stderr]. *)
Inductive printed : Type :=
| Status (status : string)            (* "[audio] ..." *)
| QueueFull.                          (* "[audio] Warning: audio queue full; dropping chunk" *)

Record state : Type := State {
  audio_queue : list bytes;
  shutdown_event : bool;
  stderr : list printed;
}.

(** [Queue.put_nowait]: [None] for [queue.Full]. *)
Definition put_nowait (item : bytes) (q : list bytes) : option (list bytes) :=
  if (0 <? maxsize)%nat && (maxsize <=? length q)%nat then None else Some (q ++ [item]).

(** [audio_callback]; [status] is [None] when no flag is set. *)
Definition audio_callback (indata : bytes) (status : option string) (st : state) : state :=
  let err := match status with Some f => stderr st ++ [Status f] | None => stderr st end in
  match put_nowait indata (audio_queue st) with
  | Some q => {| audio_queue := q; shutdown_event := shutdown_event st; stderr := err |}
  | None =>
      {| audio_queue := audio_queue st; shutdown_event := shutdown_event st;
         stderr := err ++ [QueueFull] |}
  end.

(** [shutdown_event.set()] *)
Definition set_shutdown (st : state) : state :=
  {| audio_queue := audio_queue st; shutdown_event := true; stderr := stderr st |}.

(** Where [chunk_generator] stands: before the test of the [while], inside
    [audio_queue.get(timeout=0.5)], or returned. *)
Inductive pc : Type :=
| AtWhile
| InGet
| Returned.

(** The generator with the shared state, the chunks [get] returned to it and
    the [audio_content] of the dicts it yielded. *)
Record system : Type := System {
  shared : state;
  chunk_generator : pc;
  got : list bytes;
  yielded : list bytes;
}.

(** One move of [chunk_generator]: the test of the [while], or the return of
    [get], with a chunk or, the queue still empty when the timeout expires,
    with [queue.Empty], which goes back to the test. *)
Definition resume (s : system) : system :=
  match chunk_generator s with
  | AtWhile =>
      if shutdown_event (shared s)
      then {| shared := shared s; chunk_generator := Returned; got := got s; yielded := yielded s |}
      else {| shared := shared s; chunk_generator := InGet; got := got s; yielded := yielded s |}
  | InGet =>
      match audio_queue (shared s) with
      | [] => {| shared := shared s; chunk_generator := AtWhile; got := got s; yielded := yielded s |}
      | chunk :: q =>
          {| shared := {| audio_queue := q; shutdown_event := shutdown_event (shared s);
                          stderr := stderr (shared s) |};
             chunk_generator := AtWhile;
             got := got s ++ [chunk];
             yielded := if String.eqb chunk "" then yielded s else yielded s ++ [chunk] |}
      end
  | Returned => s
  end.

(** The moves of the three threads. *)
Inductive move : Type :=
| Callback (indata : bytes) (status : option string)
| SetShutdown
| Resume.

Definition on_shared (f : state -> state) (s : system) : system :=
  {| shared := f (shared s); chunk_generator := chunk_generator s;
     got := got s; yielded := yielded s |}.

Definition step (s : system) (m : move) : system :=
  match m with
  | Callback indata status => on_shared (audio_callback indata status) s
  | SetShutdown => on_shared set_shutdown s
  | Resume => resume s
  end.

Definition run (moves : list move) (s : system) : system :=
  fold_left step moves s.

(** The state at import: an empty queue, the event unset, the generator just
    created. *)
Definition initial : system :=
  {| shared := {| audio_queue := []; shutdown_event := false; stderr := [] |};
     chunk_generator := AtWhile; got := []; yielded := [] |}.

(** The frames the callback was given. *)
Definition pushed (moves : list move) : list bytes :=
  omap (fun m => match m with Callback indata _ => Some indata | _ => None end) moves.

(** No move sets the event. *)
Definition never_set (moves : list move) : Prop :=
  Forall (fun m => m <> SetShutdown) moves.

(** The number of warnings of a full queue printed. *)
Definition drops (err : list printed) : nat :=
  length (List.filter (fun p => match p with QueueFull => true | _ => false end) err).

(** The chunks that are not empty. *)
Definition nonempty (chunks : list bytes) : list bytes :=
  List.filter (fun chunk => negb (String.eqb chunk "")) chunks.

(** The number of moves of the generator. *)
Definition resumes (moves : list move) : nat :=
  length (List.filter (fun m => match m with Resume => true | _ => false end) moves).

End Audio.


(** ** The recognition client ([src/modules/asr_engine.py])

    The backend is a parameter: whether the channel gets ready, the responses
    it streams and whether the stream ends with an [RpcError]. *)

Module Asr.

Record RecognitionConfig : Type := Config {
  encoding : Z;
  sample_rate_hertz : Z;
  language_code : string;
  audio_channel_count : Z;
  max_alternatives : Z;
  enable_automatic_punctuation : bool;
}.

(** A [StreamingRecognizeRequest]. *)
Inductive request : Type :=
| StreamingConfig (config : RecognitionConfig) (interim_results : bool)
| AudioContent (audio_content : bytes).

(** A result of the backend: the transcripts of its alternatives and its
    [is_final] flag.  A response is a list of results. *)
Record result : Type := Result {
  alternatives : list string;
  is_final : bool;
}.

Definition response : Type := list result.

Inductive printed : Type :=
| NotReady                      (* "Could not connect to Riva server at ... within timeout." *)
| AsrError (details : string)   (* "Riva ASR error: ..." *)
| StreamingError (details : string). (* "Riva streaming error: ..." *)

(** [b"\x00\x00" * n] *)
Fixpoint zeros (n : nat) : bytes :=
  match n with
  | O => ""
  | S n => String "000" (String "000" (zeros n))
  end.

Section WithEnvironment.

(** What [_resolve_encoding_value()] finds for [LINEAR_PCM]. *)
Variable encoding_value : Z.

(** [int(append_silence_tail_sec * sample_rate_hz)], a product of floats
    cut to an [int]. *)
Variable int_of_product : Q -> Z -> Z.

Definition _config (sample_rate_hz : Z) (language_code : string) : RecognitionConfig :=
  {| encoding := encoding_value;
     sample_rate_hertz := sample_rate_hz;
     language_code := language_code;
     audio_channel_count := 1;
     max_alternatives := 1;
     enable_automatic_punctuation := true |}.

(** The loop over [chunk_generator] in [request_stream]; an item is the
    [audio_content] of the dict, [None] when the dict has no such key. *)
Fixpoint audio_requests (items : list (option bytes)) : list request :=
  match items with
  | [] => []
  | item :: rest =>
      let audio_bytes := default "" item in
      if String.eqb audio_bytes "" then audio_requests rest
      else AudioContent audio_bytes :: audio_requests rest
  end.

(** The silence tail of [request_stream]. *)
Definition silence_tail (append_silence_tail_sec : Q) (sample_rate_hz : Z) : list request :=
  if Qlt_le_dec 0 append_silence_tail_sec
  then
    let tail_samples := int_of_product append_silence_tail_sec sample_rate_hz in
    [AudioContent (zeros (Z.to_nat tail_samples))]
  else [].

(** All that [request_stream] yields when it is run to its end. *)
Definition request_stream (items : list (option bytes)) (sample_rate_hz : Z)
    (language_code : string) (append_silence_tail_sec : Q) : list request :=
  StreamingConfig (_config sample_rate_hz language_code) true
    :: audio_requests items ++ silence_tail append_silence_tail_sec sample_rate_hz.



(** The first transcripts of the results that have alternatives. *)
Fixpoint transcripts (results : response) : list string :=
  match results with
  | [] => []
  | r :: rest =>
      match alternatives r with
      | [] => transcripts rest
      | transcript :: _ => transcript :: transcripts rest
      end
  end.

(** The results that have alternatives. *)
Definition with_alternatives (results : response) : response :=
  List.filter (fun r => match alternatives r with [] => false | _ => true end) results.

(** [" ".join(parts)] *)
Fixpoint join (parts : list string) : string :=
  match parts with
  | [] => ""
  | [part] => part
  | part :: rest => (part ++ " " ++ join rest)%string
  end.

(** [transcribe]: the text returned and the lines printed, for a channel
    that is [ready] or not and the outcome of [Recognize], a response or the
    details of an [RpcError]. *)
Definition transcribe (ready : bool) (outcome : string + response) : string * list printed :=
  if ready
  then
    match outcome with
    | inr results =>
        match results with
        | [] => ("", [])
        | _ => (join (transcripts results), [])
        end
    | inl details => ("", [AsrError details])
    end
  else ("", [NotReady]).

End WithEnvironment.

End Asr.

(** ** The pipeline worker ([src/main.py], [process_audio_stream]) *)

Module Pipeline.

Definition VRED_HOST : string := "127.0.0.1".
Definition VRED_PORT : Z := 8888.

Inductive printed : Type :=
| Starting                                    (* "Starting real-time streaming transcription..." *)
| Final (text : string)                       (* "Final: ..." *)
| Matched (matched_phrase : option string) (score : Q) (group name : value)
                                              (* "[client] Matched: '...' (score=...) -> VSet: .../..." *)
| Activated (group name : value)              (* "[client] Activated VSet: .../..." *)
| VredError (resp : value)                    (* "[client] VRED error: ..." *)
| ClientNotAvailable                          (* "[client] VRED client not available. Skipping call." *)
| SkippingVred                                (* "[client] Skipping VRED call (demo mode)" *)
| NoMatch                                     (* "No matching command found." *)
| Exiting.                                    (* "[stream] Exiting streaming loop" *)

(** What the worker has printed, the socket calls it has made and the number
    of requests it has sent. *)
Record state : Type := State {
  stdout : list printed;
  calls : list Client.call;
  sent : nat;
}.

Definition initial : state := {| stdout := []; calls := []; sent := 0 |}.

(** How the body of the loop ends: it goes on to the next transcript, or an
    exception leaves the loop. *)
Inductive flow : Type :=
| Next (st : state)
| Raised (st : state).

Inductive ending : Type :=
| Exhausted
| Escaped.

(** The state the body of the loop leaves. *)
Definition state_of (f : flow) : state :=
  match f with Next st | Raised st => st end.

Definition say (line : printed) (st : state) : state :=
  {| stdout := stdout st ++ [line]; calls := calls st; sent := sent st |}.

(** [v[i]] for an [int] [i] that is not negative: an element of a list, a
    character of a [str]; [None] for the [KeyError] of a dict, whose keys
    are [str], the [IndexError] of a short list or [str], and the
    [TypeError] of any other value. *)
Definition item (v : value) (i : nat) : option value :=
  match v with
  | VList l => l !! i
  | VStr s => match String.get i s with Some c => Some (VStr (String c "")) | None => None end
  | _ => None
  end.

(** [transcript.get("text", "").strip()]: the default is for an absent key
    only; [None] for the [AttributeError] of a value that is no [str]. *)
Definition text_of `{L : Lib} (transcript : dict) : option string :=
  match Router.subscript transcript "text" with
  | None => Some (strip "")
  | Some v => strip <$> as_str v
  end.

(** The decision lines. *)
Definition is_final_line (p : printed) : bool :=
  match p with Final _ => true | _ => false end.

Definition is_decision_line (p : printed) : bool :=
  match p with Matched _ _ _ _ | NoMatch => true | _ => false end.

(** The number of decision lines. *)
Definition decisions (out : list printed) : nat :=
  length (List.filter is_decision_line out).

(** The texts of the [Final] lines. *)
Definition finals (out : list printed) : list string :=
  omap (fun p => match p with Final text => Some text | _ => None end) out.

Section WithEnvironment.

Context `{L : Lib}.

(** The module constants [ENABLE_VRED] and [VRED_TOKEN]. *)
Variable ENABLE_VRED : bool.
Variable VRED_TOKEN : option string.

(** The router with its catalog and models. *)
Variable COMMAND_MAP : dict.
Variable intent_classifier : string -> string * Q.
Variable index_search : string -> Q * Z.

(** Whether [modules.vred_client] can be imported. *)
Variable importable : bool.

(** What the network does to each connection, by the number of requests
    sent before it. *)
Variable network : nat -> Client.net.

Definition get_command : string -> option Router.answer :=
  Router.get_command COMMAND_MAP intent_classifier index_search.

(** The call [send_activate_vset(VRED_HOST, VRED_PORT, group, name,
    token=VRED_TOKEN, timeout=1.0)] with the two components of the command,
    whatever values they are. *)
Definition send (group name : value) (n : Client.net) : Client.outcome * list Client.call :=
  let msg :=
    Client.with_token VRED_TOKEN
      [("action", VStr "activate_pair"); ("group", group); ("name", name)] in
  let data := utf8_encode (json_dumps (VDict msg) ++ nl) in
  let opened := [Client.create_connection VRED_HOST VRED_PORT] in
  match n with
  | Client.ConnectFails e => (Client.Raises e, opened)
  | Client.SendFails e => (Client.Raises e, opened ++ [Client.sendall data; Client.close])
  | Client.ShutdownFails e =>
      (Client.Raises e, opened ++ [Client.sendall data; Client.shutdown_wr; Client.close])
  | Client.RecvFails e =>
      (Client.Raises e,
       opened ++ [Client.sendall data; Client.shutdown_wr; Client.recv; Client.close])
  | Client.Received ack =>
      let resp :=
        match utf8_decode ack with
        | None => Client.invalid_ack
        | Some text =>
            match json_loads (strip text) with
            | None => Client.invalid_ack
            | Some v => v
            end
        end in
      (Client.Returns resp,
       opened ++ [Client.sendall data; Client.shutdown_wr; Client.recv; Client.close])
  end.

(** The [if ENABLE_VRED:] part, after the command was split in [group] and
    [name]. *)
Definition activate (group name : value) (st : state) : flow :=
  if ENABLE_VRED then
    if importable then
      let '(out, cs) := send group name (network (sent st)) in
      let st' := {| stdout := stdout st; calls := calls st ++ cs; sent := S (sent st) |} in
      match out with
      | Client.Raises _ => Raised st'
      | Client.Returns resp =>
          match resp with
          | VDict d =>
              if truthy (get d "ok") then Next (say (Activated group name) st')
              else Next (say (VredError resp) st')
          | _ => Raised st'
          end
      end
    else Next (say ClientNotAvailable st)
  else Next (say SkippingVred st).

(** The body of the [for] loop for one transcript. *)
Definition body (transcript : dict) (st : state) : flow :=
  if negb (truthy (get transcript "is_final")) then Next st
  else
    match text_of transcript with
    | None => Raised st
    | Some text =>
        if String.eqb text "" then Next st
        else
          let st1 := say (Final text) st in
          match get_command text with
          | None => Raised st1
          | Some (vset, matched_phrase, score) =>
              if truthy vset then
                match item vset 0 with
                | None => Raised st1
                | Some group =>
                    match item vset 1 with
                    | None => Raised st1
                    | Some name =>
                        match score with
                        | None => Raised st1
                        | Some sc =>
                            activate group name (say (Matched matched_phrase sc group name) st1)
                        end
                    end
                end
              else Next (say NoMatch st1)
          end
    end.

Fixpoint loop (transcripts : list dict) (st : state) : ending * state :=
  match transcripts with
  | [] => (Exhausted, st)
  | transcript :: rest =>
      match body transcript st with
      | Next st' => loop rest st'
      | Raised st' => (Escaped, st')
      end
  end.

(** [process_audio_stream] on the transcripts [stream_transcribe] yields;
    the [finally] prints its line however the loop ends. *)
Definition process_audio_stream (transcripts : list dict) : ending * state :=
  let '(e, st) := loop transcripts (say Starting initial) in
  (e, say Exiting st).


(** The transcript is one the loop skips: not final, or with a text that is
    blank. *)
Definition skipped (transcript : dict) : Prop :=
  truthy (get transcript "is_final") = false \/ text_of transcript = Some "".

End WithEnvironment.

End Pipeline.

(** ** Sample data *)

Module Samples.

(** The action the handler enqueues for
    [{"action": "activate_pair", "group": "Interior", "name": "Red"}]. *)
Definition red_pair : dict :=
  [("action", VStr "activate_pair"); ("group", VStr "Interior"); ("name", VStr "Red")].

(** The action the handler enqueues for
    [{"action": "activate_vset", "vset_name": "Red"}]. *)
Definition red_vset : dict :=
  [("action", VStr "activate_vset"); ("vset_name", VStr "Red")].

(** An actuator that always returns, and one that always raises. *)
Definition working : list string -> string -> option string := fun _ _ => None.
Definition broken : list string -> string -> option string := fun _ _ => Some "no such variant set".

(** The request line of a message, as [json.dumps] writes it. *)
Definition line_of (msg : dict) : bytes := (Ref.json_dumps (VDict msg) ++ nl)%string.

(** Request lines: a ping, the pair, an empty line, a line that is not JSON,
    and a line that is JSON but no object. *)
Definition ping : dict := [("action", VStr "ping")].
Definition ping_line : bytes := line_of ping.
Definition red_line : bytes := line_of red_pair.
Definition empty_line : bytes := nl.
Definition broken_line : bytes := ("{bad" ++ nl)%string.
Definition number_line : bytes := ("5" ++ nl)%string.

(** The acknowledgment lines, byte for byte. *)
Definition pong_ack : bytes :=
  ("{" ++ Ref.quoted "ok" ++ ": true, " ++ Ref.quoted "pong" ++ ": true}" ++ nl)%string.
Definition ok_ack : bytes :=
  ("{" ++ Ref.quoted "ok" ++ ": true}" ++ nl)%string.
Definition error_ack (error : string) : bytes :=
  ("{" ++ Ref.quoted "ok" ++ ": false, " ++ Ref.quoted "error" ++ ": "
       ++ Ref.quoted error ++ "}" ++ nl)%string.

(** A catalog with an empty phrase, a classifier below its threshold and a
    search that finds the empty phrase at similarity 0.9. *)
Definition catalog : dict :=
  [("activate red interior", VList [VStr "Interior"; VStr "Red"]);
   ("", VList [VStr "Exterior"; VStr "Blue"])].
Definition unsure : string -> string * Q := fun _ => ("LABEL_0", 40 # 100).
Definition nearest_is_empty : string -> Q * Z := fun _ => (90 # 100, 1%Z).

(** Fifty frames pushed with nothing taken: the queue is full. *)
Definition burst : list Audio.move := replicate 50 (Audio.Callback "frame" None).

(** More actions: another pair, and a pair whose name is a number. *)
Definition blue_pair : dict :=
  [("action", VStr "activate_pair"); ("group", VStr "Exterior"); ("name", VStr "Blue")].
Definition numbered_pair : dict :=
  [("action", VStr "activate_pair"); ("group", VStr "Interior"); ("name", VInt 5)].

Definition token_ping : dict := [("action", VStr "ping"); ("token", VStr "s3cret")].
Definition token_ping_line : bytes := line_of token_ping.

(** A catalog of one phrase, a classifier that is sure of that phrase, and a
    search that finds it at similarity 0.81. *)
Definition red_catalog : dict :=
  [("activate red interior", VList [VStr "Interior"; VStr "Red"])].
Definition sure : string -> string * Q := fun _ => ("activate red interior", 80 # 100).
Definition nearest_is_red : string -> Q * Z := fun _ => (81 # 100, 0%Z).
Definition out_of_range : string -> Q * Z := fun _ => (81 # 100, 7%Z).

(** Transcripts: a final one, an interim one and a final blank one. *)
Definition final_red : dict :=
  [("text", VStr " turn on red interior light "); ("is_final", VBool true)].
Definition interim_red : dict :=
  [("text", VStr "turn on"); ("is_final", VBool false)].
Definition final_blank : dict :=
  [("text", VStr "  "); ("is_final", VBool true)].

(** A network that refuses every connection. *)
Definition refusing : nat -> Client.net :=
  fun _ => Client.ConnectFails Client.ConnectionRefusedError.


(** Twenty frames pushed, of which the generator takes one. *)
Definition trickle : list Audio.move :=
  replicate 20 (Audio.Callback "frame" None) ++ [Audio.Resume; Audio.Resume].

(** Two frames queued, then the shutdown, then the generator run. *)
Definition late_shutdown : list Audio.move :=
  [Audio.Callback "a" None; Audio.Callback "b" None; Audio.SetShutdown;
   Audio.Resume; Audio.Resume; Audio.Resume].

End Samples.

(** * Properties *)

(** ** The executor: de-duplication *)

Section ExecutorFacts.

Import Executor.

Context `{L : Lib}.
Variable USE_GROUP_IN_VSET_NAME : bool.
Variable selectVariantSet : list string -> string -> option string.

Local Abbreviation drain := (drain USE_GROUP_IN_VSET_NAME selectVariantSet).
Local Abbreviation loop_body := (loop_body USE_GROUP_IN_VSET_NAME selectVariantSet).
Local Abbreviation activate := (activate selectVariantSet).
Local Abbreviation derived_name := (derived_name USE_GROUP_IN_VSET_NAME).
Local Abbreviation calls_after := (calls_after USE_GROUP_IN_VSET_NAME selectVariantSet).

Lemma with_queue_twice q q' st : with_queue q (with_queue q' st) = with_queue q st.
Proof. reflexivity. Qed.

Lemma activate_with_queue n line q st :
  activate n line (with_queue q st) = with_queue q (activate n line st).
Proof.
  unfold Executor.activate; simpl.
  destruct (bool_decide _); [reflexivity|].
  destruct (selectVariantSet _ _); reflexivity.
Qed.

Lemma loop_body_with_queue a q st :
  loop_body a (with_queue q st) = with_queue q <$> loop_body a st.
Proof.
  unfold Executor.loop_body.
  repeat (case_match; simpl; try reflexivity);
    rewrite ?activate_with_queue; reflexivity.
Qed.

(** The loop reads the queue it is given, not the one stored in the state. *)
Lemma drain_with_queue q q' st : drain q (with_queue q' st) = drain q st.
Proof.
  revert q' st; induction q as [|a q IH]; intros q' st; simpl.
  - reflexivity.
  - rewrite !with_queue_twice. reflexivity.
Qed.

Lemma drain_cons a q st :
  drain (a :: q) st =
    match loop_body a st with
    | Some st' => drain q st'
    | None => (Escaped, with_queue q st)
    end.
Proof.
  simpl. rewrite loop_body_with_queue.
  destruct (loop_body a st) as [st'|]; simpl; [apply drain_with_queue|reflexivity].
Qed.

(** Draining a queue is draining its front and then its back. *)
Lemma drain_app pre q st st1 :
  drain pre st = (QueueEmpty, st1) -> drain (pre ++ q) st = drain q st1.
Proof.
  revert st. induction pre as [|a pre IH]; intros st.
  - simpl. intros [= <-]. symmetry. apply drain_with_queue.
  - rewrite <- app_comm_cons, !drain_cons.
    destruct (loop_body a st) as [st'|]; [apply IH|discriminate].
Qed.

(** An action with a derived name reaches the de-dup test with that name. *)
Lemma loop_body_activation a n :
  derived_name a = Some n ->
  exists line, forall st, loop_body a st = Some (activate n line st).
Proof.
  unfold Executor.derived_name, Executor.loop_body.
  repeat (case_match; simpl in *; simplify_eq; try discriminate);
    intros; simplify_eq; eexists; intros; reflexivity.
Qed.

Lemma drain_activation a n :
  derived_name a = Some n ->
  exists line, forall st,
    loop_body a st = Some (activate n line st) /\
    forall q, drain (a :: q) st = drain q (activate n line st).
Proof.
  intros Ha. destruct (loop_body_activation a n Ha) as [line Hbody].
  exists line. intros st. split; [apply Hbody|].
  intros q. rewrite drain_cons, Hbody. reflexivity.
Qed.

Lemma activate_suppressed n line st :
  _last_activation st = Some n -> activate n line st = st.
Proof.
  intros H. unfold Executor.activate. rewrite bool_decide_eq_true_2; done.
Qed.

Lemma activate_last n line st : _last_activation (activate n line st) = Some n.
Proof.
  unfold Executor.activate. case_bool_decide; [done|].
  destruct (selectVariantSet _ _); reflexivity.
Qed.

Lemma activate_calls n line st :
  _last_activation st <> Some n ->
  api_calls (activate n line st) = api_calls st ++ [n].
Proof.
  intros H. unfold Executor.activate. rewrite bool_decide_eq_false_2 by done.
  destruct (selectVariantSet _ _); reflexivity.
Qed.

Lemma activate_twice n line line' st :
  activate n line' (activate n line st) = activate n line st.
Proof. apply activate_suppressed, activate_last. Qed.

(** C1.  An activation (a pair or a variant set by name) whose derived name
    is the current [_last_activation] is skipped, wherever it stands in the
    queue: draining it changes nothing and calls nothing.  So draining the
    same activation twice in a row is draining it once, and the two add
    exactly one call of the actuator API when the first is not itself
    suppressed, as from the initial state. *)
Theorem repeated_activation_is_suppressed (a : dict) (n : string) :
  derived_name a = Some n ->
  (forall st q, _last_activation st = Some n -> drain (a :: q) st = drain q st) /\
  (forall pre q st st1,
     drain pre st = (QueueEmpty, st1) -> _last_activation st1 = Some n ->
     drain (pre ++ a :: q) st = drain (pre ++ q) st) /\
  (forall st q, drain (a :: a :: q) st = drain (a :: q) st) /\
  (forall st, _last_activation st <> Some n -> calls_after [a; a] st = api_calls st ++ [n]) /\
  calls_after [a; a] initial = [n].
Proof.
  intros Ha. destruct (drain_activation a n Ha) as [line Hdrain].
  assert (Hcalls : forall st, _last_activation st <> Some n ->
                     calls_after [a; a] st = api_calls st ++ [n]).
  { intros st Hst. unfold Executor.calls_after.
    rewrite !(proj2 (Hdrain _)), activate_twice. simpl.
    apply activate_calls, Hst. }
  repeat split.
  - intros st q Hst. rewrite (proj2 (Hdrain _)), activate_suppressed by done. reflexivity.
  - intros pre q st st1 Hpre Hst1. rewrite !(drain_app pre _ st st1 Hpre).
    rewrite (proj2 (Hdrain _)), activate_suppressed by done. reflexivity.
  - intros st q. rewrite !(proj2 (Hdrain _)), activate_twice. reflexivity.
  - exact Hcalls.
  - apply (Hcalls initial). discriminate.
Qed.

(** C2, as the code has it.  When the call of the actuator API raises, the
    exception is caught and printed and the loop goes on with the rest of the
    queue; [_last_activation] was set to the derived name before the call and
    stays so, and the same activation right after is suppressed. *)
Theorem failed_activation_advances_dedup_state (a : dict) (n e : string) (st : state) :
  derived_name a = Some n ->
  _last_activation st <> Some n ->
  selectVariantSet (api_calls st) n = Some e ->
  exists st',
    loop_body a st = Some st' /\
    api_calls st' = api_calls st ++ [n] /\
    last (stdout st') = Some (ErrorActivating n e) /\
    _last_activation st' = Some n /\
    (forall q, drain (a :: q) st = drain q st') /\
    (forall q, drain (a :: a :: q) st = drain (a :: q) st).
Proof.
  intros Ha Hst He. destruct (drain_activation a n Ha) as [line Hdrain].
  exists (activate n line st). repeat split.
  - apply Hdrain.
  - apply activate_calls, Hst.
  - unfold Executor.activate. rewrite bool_decide_eq_false_2 by done.
    rewrite He. simpl. rewrite last_app. reflexivity.
  - apply activate_last.
  - intros q. apply Hdrain.
  - intros q. rewrite !(proj2 (Hdrain _)), activate_twice. reflexivity.
Qed.

(** C10.  The two kinds of activation share [_last_activation]: after an
    activation of one kind, that global holds its derived name, and an
    activation of the other kind with the same derived name right after it is
    skipped without a call of the actuator API. *)
Theorem dedup_state_is_shared_across_kinds (a b : dict) (n : string) :
  eq_str (get a "action") "activate_vset" = true ->
  eq_str (get b "action") "activate_pair" = true ->
  derived_name a = Some n ->
  derived_name b = Some n ->
  forall st q,
    drain (a :: b :: q) st = drain (a :: q) st /\
    drain (b :: a :: q) st = drain (b :: q) st /\
    calls_after [a; b] st = calls_after [a] st /\
    calls_after [b; a] st = calls_after [b] st /\
    _last_activation (drain [a] st).2 = Some n /\
    _last_activation (drain [b] st).2 = Some n.
Proof.
  intros _ _ Ha Hb st q.
  destruct (drain_activation a n Ha) as [la Hdraina].
  destruct (drain_activation b n Hb) as [lb Hdrainb].
  unfold Executor.calls_after.
  rewrite !(proj2 (Hdraina _)), !(proj2 (Hdrainb _)), !(proj2 (Hdraina _)), !activate_twice.
  simpl. rewrite !activate_last. done.
Qed.

End ExecutorFacts.

(** ** The dispatch server: acknowledgments *)

Section ServerFacts.

Import Server.

Context `{L : Lib}.
Variable SHARED_SECRET : option string.

Local Abbreviation handle_line := (handle_line SHARED_SECRET).
Local Abbreviation handle := (handle SHARED_SECRET).
Local Abbreviation dispatch := (dispatch SHARED_SECRET).
Local Abbreviation written := (written SHARED_SECRET).

Lemma extend_empty c : extend c empty = c.
Proof. destruct c; unfold extend; simpl. rewrite !app_nil_r. reflexivity. Qed.

Lemma send_extend obj c d : _send obj (extend c d) = extend c (_send obj d).
Proof. unfold _send, extend; simpl. rewrite app_assoc. reflexivity. Qed.

Lemma enqueue_extend a c d : _enqueue_action a (extend c d) = extend c (_enqueue_action a d).
Proof. unfold _enqueue_action, extend; simpl. rewrite app_assoc. reflexivity. Qed.

(** What a line does to a connection does not depend on what the connection
    holds already. *)
Lemma dispatch_extend msg c d : dispatch msg (extend c d) = extend_flow c (dispatch msg d).
Proof.
  unfold Server.dispatch.
  repeat (case_match; simpl; try reflexivity);
    rewrite ?enqueue_extend, ?send_extend; reflexivity.
Qed.

Lemma handle_line_extend raw c d :
  handle_line raw (extend c d) = extend_flow c (handle_line raw d).
Proof.
  unfold Server.handle_line.
  repeat (case_match; simpl; try reflexivity);
    rewrite ?send_extend, ?dispatch_extend; reflexivity.
Qed.

Lemma handle_line_written raw c :
  match handle_line raw c with
  | Next c' | Raised c' => wfile c' = wfile c ++ written raw
  end.
Proof.
  pose proof (handle_line_extend raw c empty) as H.
  rewrite extend_empty in H. rewrite H. unfold Server.written.
  destruct (Server.handle_line _ raw empty); reflexivity.
Qed.

Lemma dispatch_stripable msg c :
  stripable msg -> exists c', dispatch (VDict msg) c = Next c' /\ length (wfile c') = S (length (wfile c)).
Proof.
  intros Hs. unfold Server.dispatch.
  pose proof (Hs "vset_name" ltac:(simpl; tauto)) as Hv.
  pose proof (Hs "group" ltac:(simpl; tauto)) as Hg.
  pose proof (Hs "name" ltac:(simpl; tauto)) as Hn.
  destruct (as_str (or_empty (get msg "vset_name"))); [|done].
  destruct (as_str (or_empty (get msg "group"))); [|done].
  destruct (as_str (or_empty (get msg "name"))); [|done].
  repeat case_match; eexists; (split; [reflexivity|]);
    simpl; rewrite length_app; simpl; lia.
Qed.

(** A regular line is got through, with no acknowledgment when it is blank
    and with one otherwise. *)
Lemma handle_line_regular raw c :
  regular raw ->
  exists c', handle_line raw c = Next c' /\
    length (wfile c') = (if blank raw then 0 else 1) + length (wfile c).
Proof.
  unfold regular, blank, undecodable, carries, Server.handle_line.
  intros [Hb | [Hu | (msg & (text & Hd & Hne & Hj) & Hs)]].
  - destruct (utf8_decode raw) as [text|]; [|done].
    rewrite Hb. eexists; split; reflexivity.
  - destruct (utf8_decode raw) as [text|].
    + rewrite Hu. destruct (String.eqb (strip text) "");
        eexists; (split; [reflexivity|]); simpl; rewrite ?length_app; simpl; lia.
    + eexists; split; [reflexivity|]. simpl. rewrite length_app; simpl; lia.
  - rewrite Hd, Hj. apply String.eqb_neq in Hne. rewrite Hne.
    destruct (dispatch_stripable msg c Hs) as (c' & -> & Hlen).
    exists c'. split; [reflexivity|]. lia.
Qed.

Lemma written_regular raw :
  regular raw -> length (written raw) = if blank raw then 0 else 1.
Proof.
  intros Hr. destruct (handle_line_regular raw empty Hr) as (c' & Hc' & Hlen).
  unfold Server.written. fold empty. rewrite Hc'. simpl in Hlen. lia.
Qed.

Lemma handle_regular rfile c :
  Forall regular rfile ->
  exists c', handle rfile c = (EndOfInput, c') /\ wfile c' = wfile c ++ flat_map written rfile.
Proof.
  intros Hall. revert c. induction Hall as [|raw rest Hr _ IH]; intros c; simpl.
  - exists c. rewrite app_nil_r. done.
  - destruct (handle_line_regular raw c Hr) as (c1 & Hc1 & _).
    pose proof (handle_line_written raw c) as Hw. rewrite Hc1 in Hw |- *.
    destruct (IH c1) as (c' & Hc' & Hw'). exists c'. split; [exact Hc'|].
    rewrite Hw', Hw, app_assoc. reflexivity.
Qed.

Lemma handle_app pre post c c1 :
  handle pre c = (EndOfInput, c1) -> handle (pre ++ post) c = handle post c1.
Proof.
  revert c. induction pre as [|raw pre IH]; intros c; simpl.
  - intros [= ->]. reflexivity.
  - destruct (Server.handle_line _ raw c); [apply IH|discriminate].
Qed.

(** C4, as the code has it.  On a connection of regular lines the handler
    writes one acknowledgment for each line that is not blank and none for a
    blank one, in the order of the lines, and all those of the lines read so
    far are written when it goes on to the next line. *)
Theorem one_ack_per_nonblank_line (rfile : list bytes) (c : conn) :
  Forall regular rfile ->
  (exists c', handle rfile c = (EndOfInput, c') /\
              wfile c' = wfile c ++ flat_map written rfile) /\
  Forall (fun raw => length (written raw) = if blank raw then 0 else 1) rfile /\
  (forall pre post, rfile = pre ++ post ->
     exists c1, handle pre c = (EndOfInput, c1) /\
                wfile c1 = wfile c ++ flat_map written pre /\
                handle rfile c = handle post c1).
Proof.
  intros Hall. split; [apply handle_regular, Hall|]. split.
  - eapply Forall_impl; [exact Hall|]. intros raw Hr. apply written_regular, Hr.
  - intros pre post ->. apply Forall_app in Hall as [Hpre _].
    destruct (handle_regular pre c Hpre) as (c1 & Hc1 & Hw).
    exists c1. repeat split; [exact Hc1|exact Hw|]. apply handle_app, Hc1.
Qed.

(** C5, as the code has it.  A line that is not blank and is not JSON gets
    the acknowledgment [{"ok": false, "error": "invalid_json"}], enqueues
    nothing, and the handler goes on to the lines after it. *)
Theorem undecodable_line_is_rejected (raw : bytes) (rest : list bytes) (c : conn) :
  undecodable raw ->
  blank raw = false ->
  handle_line raw c = Next (_send (ack_error "invalid_json") c) /\
  _command_queue (_send (ack_error "invalid_json") c) = _command_queue c /\
  handle (raw :: rest) c = handle rest (_send (ack_error "invalid_json") c).
Proof.
  unfold undecodable, blank. intros Hu Hb.
  assert (Hline : handle_line raw c = Next (_send (ack_error "invalid_json") c)).
  { unfold Server.handle_line. destruct (utf8_decode raw) as [text|]; [|reflexivity].
    rewrite Hb, Hu. reflexivity. }
  repeat split; [exact Hline|]. simpl. rewrite Hline. reflexivity.
Qed.

End ServerFacts.

Section ServerAuth.

Import Server.

Context `{L : Lib}.

(** C8.  With a shared secret configured, a request whose [token] is absent
    or is not the secret gets [{"ok": false, "error": "unauthorized"}] and
    enqueues nothing. *)
Theorem token_mismatch_is_unauthorized
    (secret : string) (raw : bytes) (msg : dict) (rest : list bytes) (c : conn) :
  carries raw msg ->
  get msg "token" <> VStr secret ->
  handle_line (Some secret) raw c = Next (_send (ack_error "unauthorized") c) /\
  _command_queue (_send (ack_error "unauthorized") c) = _command_queue c /\
  handle (Some secret) (raw :: rest) c =
    handle (Some secret) rest (_send (ack_error "unauthorized") c).
Proof.
  intros (text & Hd & Hne & Hj) Htok.
  assert (Hline : handle_line (Some secret) raw c = Next (_send (ack_error "unauthorized") c)).
  { unfold handle_line. rewrite Hd, Hj. apply String.eqb_neq in Hne. rewrite Hne.
    unfold dispatch, unauthorized.
    assert (eq_str (get msg "token") secret = false) as ->; [|reflexivity].
    destruct (get msg "token"); try reflexivity.
    simpl. apply String.eqb_neq. congruence. }
  repeat split; [exact Hline|]. simpl. rewrite Hline. reflexivity.
Qed.

End ServerAuth.

(** ** The dispatch client: failures *)

Section ClientFacts.

Import Client.

Context `{L : Lib}.

(** C3, as the code has it.  The client opens one connection whatever
    happens, with no second attempt; an acknowledgment that does not parse
    gives the returned value [{"ok": false, "error": "invalid_ack"}]; an
    exception raised by a socket call (connection failure, timeout) leaves
    the function. *)
Theorem send_returns_failure_for_bad_ack_only
    (host : string) (port : Z) (group name : string) (token : option string) :
  (forall n, connections (send_activate_vset host port group name token n).2 = 1) /\
  (forall ack, failure (Received ack) ->
     (send_activate_vset host port group name token (Received ack)).1 = Returns invalid_ack) /\
  (forall e,
     (send_activate_vset host port group name token (ConnectFails e)).1 = Raises e /\
     (send_activate_vset host port group name token (SendFails e)).1 = Raises e /\
     (send_activate_vset host port group name token (ShutdownFails e)).1 = Raises e /\
     (send_activate_vset host port group name token (RecvFails e)).1 = Raises e).
Proof.
  repeat split.
  - intros [e|e|e|e|ack]; reflexivity.
  - intros ack Hf. unfold failure in Hf. unfold send_activate_vset. simpl.
    destruct (utf8_decode ack) as [text|]; [|reflexivity].
    rewrite Hf. reflexivity.
Qed.

End ClientFacts.

(** ** The intent router: thresholds *)

Section RouterFacts.

Import Router.

Variable COMMAND_MAP : dict.
Variable intent_classifier : string -> string * Q.
Variable index_search : string -> Q * Z.

Local Abbreviation get_command := (get_command COMMAND_MAP intent_classifier index_search).
Local Abbreviation phrases := (phrases COMMAND_MAP).

Lemma subscript_contains (d : dict) (k : string) :
  contains d k = true -> exists v, subscript d k = Some v.
Proof.
  induction d as [|[k' v] d IH]; simpl; [done|].
  destruct (String.eqb k' k); eauto.
Qed.

Lemma subscript_key (d : dict) (k : string) :
  k ∈ map fst d -> exists v, subscript d k = Some v.
Proof.
  induction d as [|[k' v] d IH]; simpl; [by intros ?%elem_of_nil|].
  intros [->|Hin]%elem_of_cons.
  - rewrite String.eqb_refl. eauto.
  - destruct (String.eqb k' k); eauto.
Qed.

Lemma index_elem_of {A} (l : list A) (i : Z) (x : A) : index l i = Some x -> x ∈ l.
Proof.
  unfold index. repeat case_match; try done; intros Hx; eapply list_elem_of_lookup_2, Hx.
Qed.

(** The classifier's label wins at a score of 0.75 or more when the catalog
    has it. *)
Lemma get_command_by_label (text label : string) (score : Q) :
  intent_classifier text = (label, score) ->
  Qle_bool (75 # 100) score = true ->
  contains COMMAND_MAP label = true ->
  exists v, subscript COMMAND_MAP label = Some v /\
            get_command text = Some (v, Some label, Some score).
Proof.
  intros Hc Hs Hl. destruct (subscript_contains _ _ Hl) as [v Hv].
  exists v. split; [exact Hv|].
  unfold Router.get_command, classify_intent. rewrite Hc, Hs, Hl, Hv. reflexivity.
Qed.

(** Otherwise the nearest phrase wins at a similarity of 0.65 or more, when
    it is not the empty phrase. *)
Lemma get_command_by_phrase (text label phrase : string) (score sim : Q) (i : Z) :
  intent_classifier text = (label, score) ->
  Qle_bool (75 # 100) score && contains COMMAND_MAP label = false ->
  index_search text = (sim, i) ->
  index phrases i = Some phrase ->
  Qle_bool (65 # 100) sim = true ->
  phrase <> "" ->
  exists v, subscript COMMAND_MAP phrase = Some v /\
            get_command text = Some (v, Some phrase, Some sim).
Proof.
  intros Hc Hno Hi Hp Hs Hne.
  destruct (subscript_key COMMAND_MAP phrase) as [v Hv]; [eapply index_elem_of, Hp|].
  exists v. split; [exact Hv|].
  unfold Router.get_command, classify_intent, semantic_match.
  rewrite Hc, Hno, Hi. fold phrases. rewrite Hp. simpl. rewrite Hs. simpl.
  apply String.eqb_neq in Hne. rewrite Hne. simpl. rewrite Hv. reflexivity.
Qed.

(** Below both thresholds there is no match. *)
Lemma get_command_no_match (text label phrase : string) (score sim : Q) (i : Z) :
  intent_classifier text = (label, score) ->
  Qle_bool (75 # 100) score && contains COMMAND_MAP label = false ->
  index_search text = (sim, i) ->
  index phrases i = Some phrase ->
  Qle_bool (65 # 100) sim = false ->
  get_command text = Some no_match.
Proof.
  intros Hc Hno Hi Hp Hs.
  unfold Router.get_command, classify_intent, semantic_match.
  rewrite Hc, Hno, Hi. fold phrases. rewrite Hp. simpl. rewrite Hs. reflexivity.
Qed.

End RouterFacts.

(** ** The audio queue: bound and order *)

Section AudioFacts.

Import Audio.

Lemma run_snoc moves m s : run (moves ++ [m]) s = step (run moves s) m.
Proof. unfold run. rewrite fold_left_app. reflexivity. Qed.

Lemma run_cons m moves s : run (m :: moves) s = run moves (step s m).
Proof. reflexivity. Qed.

Lemma pushed_snoc moves m :
  pushed (moves ++ [m]) =
    pushed moves ++ match m with Callback indata _ => [indata] | _ => [] end.
Proof.
  unfold pushed. rewrite omap_app. destruct m; reflexivity.
Qed.

Lemma put_nowait_full item q :
  maxsize <= length q -> put_nowait item q = None.
Proof.
  intros H. unfold put_nowait.
  rewrite (proj2 (Nat.leb_le _ _) H). reflexivity.
Qed.

Lemma put_nowait_room item q :
  length q < maxsize -> put_nowait item q = Some (q ++ [item]).
Proof.
  intros H. unfold put_nowait.
  rewrite (proj2 (Nat.leb_gt _ _) H), andb_false_r. reflexivity.
Qed.

(** The callback either appends the frame or, the queue being full, leaves
    the queue as it is. *)
Lemma audio_callback_queue indata status st :
  (length (audio_queue st) < maxsize /\
   audio_queue (audio_callback indata status st) = audio_queue st ++ [indata]) \/
  (maxsize <= length (audio_queue st) /\
   audio_queue (audio_callback indata status st) = audio_queue st /\
   last (stderr (audio_callback indata status st)) = Some QueueFull).
Proof.
  unfold audio_callback.
  destruct (Nat.lt_ge_cases (length (audio_queue st)) maxsize) as [Hlt|Hge].
  - left. rewrite put_nowait_room by done. done.
  - right. rewrite put_nowait_full by done. simpl. rewrite last_app. done.
Qed.

Lemma step_bounded s m :
  length (audio_queue (shared s)) <= maxsize ->
  length (audio_queue (shared (step s m))) <= maxsize.
Proof.
  intros H. destruct m as [indata status| |]; simpl.
  - destruct (audio_callback_queue indata status (shared s)) as [[Hlt ->]|(_ & -> & _)];
      [rewrite length_app; simpl; lia|done].
  - done.
  - unfold resume. destruct (chunk_generator s); simpl; try done.
    + destruct (shutdown_event (shared s)); done.
    + destruct (audio_queue (shared s)) eqn:Hq; simpl in *; [rewrite Hq; simpl|]; lia.
Qed.

(** What was taken from the queue and what is in it are, in this order, what
    the queue was given and kept. *)
Lemma step_fifo s m :
  exists kept,
    kept `sublist_of` match m with Callback indata _ => [indata] | _ => [] end /\
    got (step s m) ++ audio_queue (shared (step s m)) =
      (got s ++ audio_queue (shared s)) ++ kept.
Proof.
  destruct m as [indata status| |]; simpl.
  - destruct (audio_callback_queue indata status (shared s)) as [[_ ->]|(_ & -> & _)].
    + exists [indata]. split; [done|]. rewrite app_assoc. reflexivity.
    + exists []. split; [apply sublist_nil_l|]. rewrite app_nil_r. reflexivity.
  - exists []. split; [done|]. rewrite app_nil_r. reflexivity.
  - exists []. split; [done|]. rewrite app_nil_r. unfold resume.
    destruct (chunk_generator s); simpl; try done.
    + destruct (shutdown_event (shared s)); done.
    + destruct (audio_queue (shared s)) as [|chunk q] eqn:Hq; simpl; [by rewrite Hq|].
      rewrite <- app_assoc. reflexivity.
Qed.

Lemma step_yielded s m :
  yielded s `sublist_of` got s -> yielded (step s m) `sublist_of` got (step s m).
Proof.
  intros H. destruct m as [indata status| |]; simpl; try done.
  unfold resume. destruct (chunk_generator s); simpl; try done.
  - destruct (shutdown_event (shared s)); done.
  - destruct (audio_queue (shared s)) as [|chunk q]; simpl; [done|].
    destruct (String.eqb chunk ""); [apply sublist_inserts_r, H|apply sublist_app; done].
Qed.

(** C7.  Whatever the threads do, the queue never holds more than [maxsize]
    frames; the callback always returns, and on a full queue it leaves the
    queue as it is, dropping the incoming frame, and prints the warning; the
    frames taken from the queue, followed by those still in it, are a
    subsequence of the frames pushed, in the order they were pushed. *)
Theorem audio_queue_is_bounded_and_fifo (moves : list move) :
  length (audio_queue (shared (run moves initial))) <= maxsize /\
  (got (run moves initial) ++ audio_queue (shared (run moves initial)))
    `sublist_of` pushed moves /\
  got (run moves initial) `sublist_of` pushed moves /\
  yielded (run moves initial) `sublist_of` got (run moves initial) /\
  (forall indata status st,
     maxsize <= length (audio_queue st) ->
     audio_queue (audio_callback indata status st) = audio_queue st /\
     last (stderr (audio_callback indata status st)) = Some QueueFull) /\
  (forall indata status st,
     length (audio_queue st) < maxsize ->
     audio_queue (audio_callback indata status st) = audio_queue st ++ [indata]).
Proof.
  assert (Hinv : length (audio_queue (shared (run moves initial))) <= maxsize /\
                 (got (run moves initial) ++ audio_queue (shared (run moves initial)))
                   `sublist_of` pushed moves /\
                 yielded (run moves initial) `sublist_of` got (run moves initial)).
  { induction moves as [|m moves (Hb & Hf & Hy)] using rev_ind.
    - simpl. unfold maxsize. repeat split; [lia|done|done].
    - rewrite run_snoc, pushed_snoc. repeat split.
      + apply step_bounded, Hb.
      + destruct (step_fifo (run moves initial) m) as (kept & Hk & ->).
        apply sublist_app; done.
      + apply step_yielded, Hy. }
  destruct Hinv as (Hb & Hf & Hy).
  repeat split; try done.
  - etrans; [|exact Hf]. apply sublist_inserts_r. done.
  - destruct (audio_callback_queue indata status st) as [[? _]|(_ & ? & _)]; [lia|done].
  - destruct (audio_callback_queue indata status st) as [[? _]|(_ & _ & ?)]; [lia|done].
  - intros indata status st Hlt.
    destruct (audio_callback_queue indata status st) as [[_ ?]|(? & _)]; [done|lia].
Qed.

(** ** The chunk feed: termination *)

Lemma step_unset_running s m :
  m <> SetShutdown ->
  shutdown_event (shared s) = false ->
  chunk_generator s <> Returned ->
  shutdown_event (shared (step s m)) = false /\ chunk_generator (step s m) <> Returned.
Proof.
  intros Hm Hs Hpc. destruct m as [indata status| |]; simpl; [|done|].
  - split; [|done]. unfold audio_callback. destruct (put_nowait _ _); done.
  - unfold resume. destruct (chunk_generator s); simpl; [| |done].
    + rewrite Hs. done.
    + destruct (audio_queue (shared s)); done.
Qed.

Lemma step_set s m :
  shutdown_event (shared s) = true -> shutdown_event (shared (step s m)) = true.
Proof.
  intros Hs. destruct m as [indata status| |]; simpl; [|done|].
  - unfold audio_callback. destruct (put_nowait _ _); done.
  - unfold resume. destruct (chunk_generator s); simpl; try done.
    + rewrite Hs. done.
    + destruct (audio_queue (shared s)); done.
Qed.

Lemma run_returned moves s :
  chunk_generator s = Returned ->
  chunk_generator (run moves s) = Returned /\
  got (run moves s) = got s /\ yielded (run moves s) = yielded s.
Proof.
  revert s. induction moves as [|m moves IH]; intros s Hpc; [done|].
  rewrite run_cons.
  assert (chunk_generator (step s m) = Returned /\
          got (step s m) = got s /\ yielded (step s m) = yielded s) as (H1 & H2 & H3).
  { destruct m; simpl; try done. unfold resume. rewrite Hpc. done. }
  destruct (IH _ H1) as (? & ? & ?). repeat split; congruence.
Qed.

(** With the event set and the generator before its test, the generator
    takes nothing more and returns at its next move. *)
Lemma run_set_at_while moves s :
  shutdown_event (shared s) = true ->
  chunk_generator s = AtWhile ->
  got (run moves s) = got s /\ yielded (run moves s) = yielded s /\
  (1 <= resumes moves -> chunk_generator (run moves s) = Returned).
Proof.
  revert s. induction moves as [|m moves IH]; intros s Hs Hpc.
  - simpl. repeat split; try done. unfold resumes; simpl; lia.
  - rewrite run_cons. destruct m as [indata status| |].
    + destruct (IH (step s (Callback indata status))) as (? & ? & ?);
        [by apply step_set|done|]. done.
    + destruct (IH (step s SetShutdown)) as (? & ? & ?); [done|done|]. done.
    + assert (Hr : chunk_generator (step s Resume) = Returned).
      { simpl. unfold resume. rewrite Hpc, Hs. done. }
      destruct (run_returned moves _ Hr) as (-> & -> & ->).
      simpl. unfold resume. rewrite Hpc, Hs. done.
Qed.

(** With the event set and the generator inside [get], the generator takes
    at most one more chunk and returns at its second move. *)
Lemma run_set_in_get moves s :
  shutdown_event (shared s) = true ->
  chunk_generator s = InGet ->
  length (got (run moves s)) <= S (length (got s)) /\
  length (yielded (run moves s)) <= S (length (yielded s)) /\
  (2 <= resumes moves -> chunk_generator (run moves s) = Returned).
Proof.
  revert s. induction moves as [|m moves IH]; intros s Hs Hpc.
  - simpl. repeat split; try lia. unfold resumes; simpl; lia.
  - rewrite run_cons. destruct m as [indata status| |].
    + destruct (IH (step s (Callback indata status))) as (? & ? & ?);
        [by apply step_set|done|]. done.
    + destruct (IH (step s SetShutdown)) as (? & ? & ?); [done|done|]. done.
    + assert (Hw : chunk_generator (step s Resume) = AtWhile).
      { simpl. unfold resume. rewrite Hpc. destruct (audio_queue (shared s)); done. }
      destruct (run_set_at_while moves (step s Resume)) as (-> & -> & Hret);
        [by apply step_set|done|].
      repeat split.
      * simpl. unfold resume. rewrite Hpc.
        destruct (audio_queue (shared s)); simpl; rewrite ?length_app; simpl; lia.
      * simpl. unfold resume. rewrite Hpc.
        destruct (audio_queue (shared s)); simpl; [lia|].
        destruct (String.eqb _ _); rewrite ?length_app; simpl; lia.
      * intros Hres. apply Hret. unfold resumes in *. simpl in Hres. lia.
Qed.

(** C9, as the code has it.  While the event is not set the generator never
    returns, a timeout of [get] takes it back to the test of its loop, and a
    frame at the head of the queue is yielded by its next two moves; once the
    event is set the generator returns at its next test, by its
    second move at the latest, taking at most one more chunk from the queue
    on the way, and none when it stood before the test. *)
Theorem chunk_feed_runs_until_shutdown :
  (forall moves, never_set moves -> chunk_generator (run moves initial) <> Returned) /\
  (forall s, chunk_generator s = InGet -> audio_queue (shared s) = [] ->
             resume s = {| shared := shared s; chunk_generator := AtWhile;
                           got := got s; yielded := yielded s |}) /\
  (forall s chunk q, shutdown_event (shared s) = false -> chunk_generator s = AtWhile ->
     audio_queue (shared s) = chunk :: q -> chunk <> "" ->
     yielded (run [Resume; Resume] s) = yielded s ++ [chunk]) /\
  (forall moves s, shutdown_event (shared s) = true ->
     length (got (run moves s)) <= S (length (got s)) /\
     length (yielded (run moves s)) <= S (length (yielded s)) /\
     (2 <= resumes moves -> chunk_generator (run moves s) = Returned)) /\
  (forall moves s, shutdown_event (shared s) = true -> chunk_generator s = AtWhile ->
     got (run moves s) = got s /\ yielded (run moves s) = yielded s /\
     (1 <= resumes moves -> chunk_generator (run moves s) = Returned)).
Proof.
  repeat split.
  - intros moves Hns.
    enough (shutdown_event (shared (run moves initial)) = false /\
            chunk_generator (run moves initial) <> Returned) by tauto.
    induction moves as [|m moves IH] using rev_ind; [done|].
    apply Forall_app in Hns as [Hns Hm]. rewrite Forall_singleton in Hm.
    rewrite run_snoc. destruct (IH Hns). by apply step_unset_running.
  - intros s Hpc Hq. unfold resume. rewrite Hpc, Hq. reflexivity.
  - intros s chunk q Hs Hpc Hq Hne. simpl. unfold resume at 2. rewrite Hpc, Hs.
    unfold resume. simpl. rewrite Hq. apply String.eqb_neq in Hne. rewrite Hne.
    reflexivity.
  - destruct (chunk_generator s) eqn:Hpc.
    + destruct (run_set_at_while moves s) as (-> & _ & _); [done|done|lia].
    + by destruct (run_set_in_get moves s) as (? & _ & _).
    + destruct (run_returned moves s Hpc) as (_ & -> & _). lia.
  - destruct (chunk_generator s) eqn:Hpc.
    + destruct (run_set_at_while moves s) as (_ & -> & _); [done|done|lia].
    + by destruct (run_set_in_get moves s) as (_ & ? & _).
    + destruct (run_returned moves s Hpc) as (_ & _ & ->). lia.
  - intros Hres. destruct (chunk_generator s) eqn:Hpc.
    + destruct (run_set_at_while moves s) as (_ & _ & Hr); [done|done|]. apply Hr. lia.
    + by destruct (run_set_in_get moves s) as (_ & _ & Hr); [done|done|apply Hr].
    + by destruct (run_returned moves s Hpc) as (? & _ & _).
  - by destruct (run_set_at_while moves s) as (? & _ & _).
  - by destruct (run_set_at_while moves s) as (_ & ? & _).
  - by destruct (run_set_at_while moves s) as (_ & _ & ?).
Qed.

End AudioFacts.

(** ** The properties at sample inputs *)

Section Evaluated.

Import Samples.

Lemma repeated_activation_is_suppressed_witness :
  Executor.derived_name (L := Ref.lib) false red_pair = Some "Red" /\
  Executor.calls_after (L := Ref.lib) false working [red_pair; red_pair] Executor.initial
    = ["Red"].
Proof.
  split; [reflexivity|].
  destruct (repeated_activation_is_suppressed (L := Ref.lib) false working
              red_pair "Red" eq_refl) as (_ & _ & _ & _ & H).
  exact H.
Defined.

Lemma failed_activation_advances_dedup_state_witness :
  Executor.derived_name (L := Ref.lib) false red_pair = Some "Red" /\
  Executor._last_activation Executor.initial <> Some "Red" /\
  broken (Executor.api_calls Executor.initial) "Red" = Some "no such variant set" /\
  exists st',
    Executor.loop_body (L := Ref.lib) false broken red_pair Executor.initial = Some st' /\
    Executor._last_activation st' = Some "Red".
Proof.
  split; [reflexivity|]. split; [discriminate|]. split; [reflexivity|].
  destruct (failed_activation_advances_dedup_state (L := Ref.lib) false broken
              red_pair "Red" "no such variant set" Executor.initial)
    as (st' & H1 & _ & _ & H4 & _); [reflexivity|discriminate|reflexivity|].
  exists st'. split; assumption.
Defined.

(** C2, as stated, fails.  The actuator raises on the first activation of
    ["Red"]; [_last_activation], [None] before, is ["Red"] after, and the same
    activation submitted again is suppressed: the API was called once. *)
Lemma failed_activation_is_not_retried :
  broken [] "Red" = Some "no such variant set" /\
  Executor._last_activation Executor.initial = None /\
  Executor._last_activation
    (Executor.drain (L := Ref.lib) false broken [red_pair] Executor.initial).2 = Some "Red" /\
  Executor.calls_after (L := Ref.lib) false broken [red_pair] Executor.initial = ["Red"] /\
  Executor.calls_after (L := Ref.lib) false broken [red_pair; red_pair] Executor.initial
    = ["Red"].
Proof. repeat split. Qed.

Lemma dedup_state_is_shared_across_kinds_witness :
  Executor.derived_name (L := Ref.lib) false red_vset = Some "Red" /\
  Executor.derived_name (L := Ref.lib) false red_pair = Some "Red" /\
  Executor.calls_after (L := Ref.lib) false working [red_vset; red_pair] Executor.initial
    = Executor.calls_after (L := Ref.lib) false working [red_vset] Executor.initial.
Proof.
  split; [reflexivity|]. split; [reflexivity|].
  destruct (dedup_state_is_shared_across_kinds (L := Ref.lib) false working
              red_vset red_pair "Red" eq_refl eq_refl eq_refl eq_refl Executor.initial [])
    as (_ & _ & H & _).
  exact H.
Defined.

Lemma one_ack_per_nonblank_line_witness :
  Forall (Server.regular (L := Ref.lib)) [ping_line; empty_line; broken_line; red_line] /\
  Server.handle (L := Ref.lib) None [ping_line; empty_line; broken_line; red_line] Server.empty
    = (Server.EndOfInput,
       {| Server.wfile := [pong_ack; error_ack "invalid_json"; ok_ack];
          Server._command_queue := [red_pair] |}).
Proof.
  assert (Hreg : Forall (Server.regular (L := Ref.lib))
                   [ping_line; empty_line; broken_line; red_line]).
  { constructor; [|constructor; [|constructor; [|constructor; [|constructor]]]].
    - right; right. exists ping. split.
      + exists ping_line. repeat split; vm_compute; congruence.
      + intros k [<-|[<-|[<-|[]]]]; vm_compute; congruence.
    - left. reflexivity.
    - right; left. reflexivity.
    - right; right. exists red_pair. split.
      + exists red_line. repeat split; vm_compute; congruence.
      + intros k [<-|[<-|[<-|[]]]]; vm_compute; congruence. }
  split; [exact Hreg|].
  destruct (one_ack_per_nonblank_line (L := Ref.lib) None _ Server.empty Hreg)
    as ((c' & Hc' & _) & _).
  rewrite Hc'. vm_compute in Hc'. injection Hc' as <-. reflexivity.
Defined.

(** C4, as stated, fails.  The handler reads an empty line and goes on
    without an acknowledgment: two lines received, one acknowledgment. *)
Lemma empty_line_is_not_acknowledged :
  Server.handle (L := Ref.lib) None [empty_line] Server.empty
    = (Server.EndOfInput, Server.empty) /\
  Server.handle (L := Ref.lib) None [empty_line; ping_line] Server.empty
    = (Server.EndOfInput, {| Server.wfile := [pong_ack]; Server._command_queue := [] |}).
Proof. split; reflexivity. Qed.

(** A line that is JSON but no object ends the handler, with no
    acknowledgment and the lines after it unread. *)
Example number_line_ends_the_handler :
  Server.handle (L := Ref.lib) None [number_line; ping_line] Server.empty
    = (Server.HandlerError, Server.empty).
Proof. reflexivity. Qed.

Lemma undecodable_line_is_rejected_witness :
  Server.undecodable (L := Ref.lib) broken_line /\
  Server.blank (L := Ref.lib) broken_line = false /\
  Server.handle (L := Ref.lib) None [broken_line; ping_line] Server.empty
    = (Server.EndOfInput,
       {| Server.wfile := [error_ack "invalid_json"; pong_ack];
          Server._command_queue := [] |}).
Proof.
  assert (Hu : Server.undecodable (L := Ref.lib) broken_line) by reflexivity.
  assert (Hb : Server.blank (L := Ref.lib) broken_line = false) by reflexivity.
  split; [exact Hu|]. split; [exact Hb|].
  destruct (undecodable_line_is_rejected (L := Ref.lib) None broken_line [ping_line]
              Server.empty Hu Hb) as (_ & _ & H).
  rewrite H. reflexivity.
Defined.

(** C5, as stated, fails.  An empty line is not JSON, and the handler
    answers nothing to it. *)
Lemma empty_line_is_not_rejected :
  Ref.json_loads empty_line = None /\
  Server.undecodable (L := Ref.lib) empty_line /\
  Server.handle_line (L := Ref.lib) None empty_line Server.empty = Server.Next Server.empty.
Proof. repeat split. Qed.

Lemma token_mismatch_is_unauthorized_witness :
  Server.carries (L := Ref.lib) ping_line ping /\
  get ping "token" <> VStr "s3cret" /\
  Server.handle_line (L := Ref.lib) (Some "s3cret") ping_line Server.empty
    = Server.Next {| Server.wfile := [error_ack "unauthorized"];
                     Server._command_queue := [] |}.
Proof.
  assert (Hc : Server.carries (L := Ref.lib) ping_line ping).
  { exists ping_line. repeat split; vm_compute; congruence. }
  assert (Ht : get ping "token" <> VStr "s3cret") by (vm_compute; congruence).
  split; [exact Hc|]. split; [exact Ht|].
  destruct (token_mismatch_is_unauthorized (L := Ref.lib) "s3cret" ping_line ping []
              Server.empty Hc Ht) as (H & _).
  rewrite H. reflexivity.
Defined.

Lemma send_returns_failure_for_bad_ack_only_witness :
  Client.failure (L := Ref.lib) (Client.Received "not json") /\
  (Client.send_activate_vset (L := Ref.lib) "127.0.0.1" 8888 "Interior" "Red" None
     (Client.Received "not json")).1 = Client.Returns Client.invalid_ack.
Proof.
  assert (Hf : Client.failure (L := Ref.lib) (Client.Received "not json")) by reflexivity.
  split; [exact Hf|].
  destruct (send_returns_failure_for_bad_ack_only (L := Ref.lib)
              "127.0.0.1" 8888 "Interior" "Red" None) as (_ & H & _).
  exact (H "not json" Hf).
Defined.

(** C3, as stated, fails.  A refused connection and a timeout of [recv] are
    failures of the network, and the exception leaves the function: nothing
    is returned. *)
Lemma refused_connection_raises :
  Client.failure (L := Ref.lib) (Client.ConnectFails Client.ConnectionRefusedError) /\
  Client.send_activate_vset (L := Ref.lib) "127.0.0.1" 8888 "Interior" "Red" None
    (Client.ConnectFails Client.ConnectionRefusedError)
    = (Client.Raises Client.ConnectionRefusedError,
       [Client.create_connection "127.0.0.1" 8888]) /\
  (Client.send_activate_vset (L := Ref.lib) "127.0.0.1" 8888 "Interior" "Red" None
     (Client.RecvFails Client.TimeoutError)).1 = Client.Raises Client.TimeoutError.
Proof. repeat split. Qed.

(** C6 fails on a catalog with an empty phrase.  The search finds the empty
    phrase at similarity 0.9, above the threshold, and [semantic_match]
    returns it; [if match:] takes the empty phrase for no match, and the
    router returns [(None, None, None)] instead of the command of the
    phrase. *)
Theorem empty_phrase_is_taken_for_no_match :
  Router.index (Router.phrases catalog) 1 = Some "" /\
  Router.subscript catalog "" = Some (VList [VStr "Exterior"; VStr "Blue"]) /\
  Router.semantic_match catalog nearest_is_empty "turn on red interior light"
    = Some (Some "", Some (90 # 100)) /\
  Router.get_command catalog unsure nearest_is_empty "turn on red interior light"
    = Some Router.no_match.
Proof. repeat split. Qed.

Lemma audio_queue_is_bounded_and_fifo_witness :
  Audio.maxsize <= length (Audio.audio_queue (Audio.shared (Audio.run burst Audio.initial))) /\
  Audio.audio_queue
    (Audio.audio_callback "late" None (Audio.shared (Audio.run burst Audio.initial)))
    = Audio.audio_queue (Audio.shared (Audio.run burst Audio.initial)) /\
  last (Audio.stderr
          (Audio.audio_callback "late" None (Audio.shared (Audio.run burst Audio.initial))))
    = Some Audio.QueueFull.
Proof.
  assert (Hfull : Audio.maxsize
                  <= length (Audio.audio_queue (Audio.shared (Audio.run burst Audio.initial))))
    by (vm_compute; lia).
  split; [exact Hfull|].
  destruct (audio_queue_is_bounded_and_fifo burst) as (_ & _ & _ & _ & H & _).
  exact (H "late" None _ Hfull).
Defined.

Lemma chunk_feed_runs_until_shutdown_witness :
  Audio.never_set [Audio.Callback "a" None; Audio.Resume; Audio.Resume; Audio.Resume] /\
  Audio.chunk_generator
    (Audio.run [Audio.Callback "a" None; Audio.Resume; Audio.Resume; Audio.Resume]
       Audio.initial) <> Audio.Returned.
Proof.
  assert (Hns : Audio.never_set
                  [Audio.Callback "a" None; Audio.Resume; Audio.Resume; Audio.Resume]).
  { repeat constructor; discriminate. }
  split; [exact Hns|].
  destruct chunk_feed_runs_until_shutdown as (H & _).
  exact (H _ Hns).
Defined.

(** C9, as stated, fails at its second half.  Two frames are queued when the
    event is set; the generator returns at its next test, having yielded
    nothing, and the two frames are still in the queue. *)
Lemma shutdown_does_not_drain :
  Audio.chunk_generator (Audio.run late_shutdown Audio.initial) = Audio.Returned /\
  Audio.yielded (Audio.run late_shutdown Audio.initial) = [] /\
  Audio.audio_queue (Audio.shared (Audio.run late_shutdown Audio.initial)) = ["a"; "b"].
Proof. repeat split. Qed.

End Evaluated.


(** ** The executor: what reaches the actuator *)

Section ExecutorMore.

Import Executor.

Context `{L : Lib}.
Variable USE_GROUP_IN_VSET_NAME : bool.
Variable selectVariantSet : list string -> string -> option string.

Local Abbreviation drain := (drain USE_GROUP_IN_VSET_NAME selectVariantSet).
Local Abbreviation loop_body := (loop_body USE_GROUP_IN_VSET_NAME selectVariantSet).
Local Abbreviation activate := (activate selectVariantSet).
Local Abbreviation derived_name := (derived_name USE_GROUP_IN_VSET_NAME).
Local Abbreviation _dispatch_actions :=
  (_dispatch_actions USE_GROUP_IN_VSET_NAME selectVariantSet).
Local Abbreviation tick := (tick USE_GROUP_IN_VSET_NAME selectVariantSet).
Local Abbreviation ticks := (ticks USE_GROUP_IN_VSET_NAME selectVariantSet).

Lemma coherent_activate n line st : coherent st -> coherent (activate n line st).
Proof.
  intros [Hlast Hadj]. unfold Executor.activate. case_bool_decide as Hn; [done|].
  assert (Hc : coherent {| _command_queue := _command_queue st;
                           _last_activation := Some n;
                           api_calls := api_calls st ++ [n];
                           stdout := stdout st |}).
  { split; simpl.
    - rewrite last_snoc. reflexivity.
    - intros i x y Hx Hy.
      destruct (decide (S i < length (api_calls st))) as [Hlt|Hge].
      + rewrite lookup_app_l in Hx by lia. rewrite lookup_app_l in Hy by lia. eauto.
      + assert (S i = length (api_calls st)) as Hi.
        { apply lookup_lt_Some in Hy. rewrite length_app in Hy. simpl in Hy. lia. }
        rewrite lookup_app_l in Hx by lia.
        rewrite lookup_app_r in Hy by lia.
        replace (S i - length (api_calls st)) with 0 in Hy by lia. simpl in Hy.
        injection Hy as <-. intros ->.
        apply Hn. rewrite Hlast, last_lookup.
        replace (pred (length (api_calls st))) with i by lia. exact Hx. }
  destruct Hc as [Hc1 Hc2].
  destruct (selectVariantSet _ _); split; simpl; assumption.
Qed.

Lemma coherent_say line st : coherent st -> coherent (say line st).
Proof. intros H. exact H. Qed.

Lemma coherent_with_queue q st : coherent st -> coherent (with_queue q st).
Proof. intros H. exact H. Qed.

Lemma coherent_loop_body a st st' :
  loop_body a st = Some st' -> coherent st -> coherent st'.
Proof.
  unfold Executor.loop_body.
  repeat (case_match; simpl; try discriminate); intros [= <-] Hc;
    auto using coherent_activate, coherent_say.
Qed.

Lemma coherent_drain q st : coherent st -> coherent (drain q st).2.
Proof.
  revert st. induction q as [|a q IH]; intros st Hc; simpl; [exact Hc|].
  destruct (Executor.loop_body _ _ a (with_queue q st)) as [st'|] eqn:Hb; simpl.
  - apply IH. eapply coherent_loop_body; [exact Hb|]. exact Hc.
  - exact Hc.
Qed.

(** X1.  Over any run of the listener from its initial state, whatever is
    enqueued before each run of the timer and whatever the actuator does,
    [_last_activation] is the name of the last call of the actuator API and
    no call has the name of the call before it. *)
Theorem no_call_repeats_the_one_before (qs : list (list dict)) :
  _last_activation (ticks qs initial) = last (api_calls (ticks qs initial)) /\
  forall i x y,
    api_calls (ticks qs initial) !! i = Some x ->
    api_calls (ticks qs initial) !! S i = Some y ->
    x <> y.
Proof.
  change (coherent (ticks qs initial)).
  induction qs as [|q qs IH] using rev_ind.
  - split; [reflexivity|]. intros i x y Hx. discriminate.
  - unfold Executor.ticks. rewrite fold_left_app. simpl.
    unfold Executor.tick at 1, Executor._dispatch_actions.
    apply coherent_drain, coherent_with_queue, IH.
Qed.

(** X2.  An action that is no activation with a name (a ping, an unknown
    action, an activation whose name is missing or blank) never reaches the
    actuator: the record of calls, the de-dup state and the queue stay as
    they are. *)
Theorem only_named_activations_reach_the_actuator (a : dict) (st st' : state) :
  derived_name a = None ->
  loop_body a st = Some st' ->
  api_calls st' = api_calls st /\
  _last_activation st' = _last_activation st /\
  _command_queue st' = _command_queue st.
Proof.
  unfold Executor.derived_name, Executor.loop_body.
  repeat (case_match; simpl in *; simplify_eq; try discriminate);
    intros; simplify_eq; done.
Qed.

Lemma loop_body_malformed a st : loop_body a st = None <-> malformed a.
Proof.
  unfold Executor.loop_body, malformed. split.
  - repeat (case_match; simpl; try discriminate); intros _; tauto.
  - intros [[Hv Hs]|[Hp Hs]].
    + rewrite Hv, Hs. reflexivity.
    + destruct (get a "action") as [| | | |act| |]; try discriminate.
      simpl in *. apply String.eqb_eq in Hp as ->. simpl.
      destruct Hs as [-> | Hn]; [reflexivity|].
      destruct (as_str (or_empty (get a "group"))); [|reflexivity].
      rewrite Hn. reflexivity.
Qed.

(** X3.  An action with a field that is true and no [str] raises out of
    [_dispatch_actions]: the run ends there, the action is gone from the
    queue, and the actions behind it stay queued, unprocessed, for the next
    run of the timer. *)
Theorem malformed_action_ends_the_tick (pre post : list dict) (a : dict) (st st1 : state) :
  malformed a ->
  drain pre st = (QueueEmpty, st1) ->
  drain (pre ++ a :: post) st = (Escaped, with_queue post st1) /\
  api_calls (with_queue post st1) = api_calls st1 /\
  _dispatch_actions (with_queue post st1) = drain post st1.
Proof.
  intros Hm Hpre. repeat split.
  - rewrite (drain_app _ _ pre _ st st1 Hpre), drain_cons.
    rewrite (proj2 (loop_body_malformed a st1) Hm). reflexivity.
  - unfold Executor._dispatch_actions. simpl. apply drain_with_queue.
Qed.

Lemma activate_calls_grow n line st :
  exists new, api_calls (activate n line st) = api_calls st ++ new /\ length new <= 1.
Proof.
  unfold Executor.activate. case_bool_decide.
  - exists []. rewrite app_nil_r. simpl. split; [done|lia].
  - exists [n]. destruct (selectVariantSet _ _); simpl; split; done || lia.
Qed.

Lemma loop_body_calls_grow a st st' :
  loop_body a st = Some st' ->
  exists new, api_calls st' = api_calls st ++ new /\ length new <= 1.
Proof.
  unfold Executor.loop_body.
  repeat (case_match; simpl; try discriminate); intros [= <-];
    try apply activate_calls_grow;
    exists []; rewrite app_nil_r; simpl; (split; [done|lia]).
Qed.

(** X4.  A run of [_dispatch_actions] only adds to the record of calls, and
    adds at most one call for each action in the queue. *)
Theorem at_most_one_call_per_action (q : list dict) (st : state) :
  exists new,
    api_calls (drain q st).2 = api_calls st ++ new /\ length new <= length q.
Proof.
  revert st. induction q as [|a q IH]; intros st.
  - exists []. simpl. rewrite app_nil_r. split; [done|lia].
  - rewrite drain_cons. destruct (loop_body a st) as [st'|] eqn:Hb.
    + destruct (loop_body_calls_grow a st st' Hb) as (n1 & H1 & Hl1).
      destruct (IH st') as (n2 & H2 & Hl2).
      exists (n1 ++ n2). rewrite H2, H1, app_assoc, length_app. simpl. split; [done|lia].
    + exists []. simpl. rewrite app_nil_r. split; [done|lia].
Qed.

End ExecutorMore.


(** ** The dispatch server: what is enqueued *)

(** Case analysis on a scrutinee that holds no [match] itself. *)
Ltac innermost_case :=
  match goal with
  | |- context [match ?x with _ => _ end] =>
      lazymatch x with
      | context [match _ with _ => _ end] => fail
      | _ => destruct x eqn:?
      end
  end.

Section ServerMore.

Import Server.

Context `{L : Lib}.
Variable SHARED_SECRET : option string.

Local Abbreviation handle_line := (handle_line SHARED_SECRET).
Local Abbreviation handle := (handle SHARED_SECRET).
Local Abbreviation dispatch := (dispatch SHARED_SECRET).
Local Abbreviation written := (written SHARED_SECRET).
Local Abbreviation enqueued := (enqueued SHARED_SECRET).

Lemma dispatch_effect msg c :
  match dispatch msg c with
  | Raised c' => c' = c
  | Next c' =>
      exists ack, wfile c' = wfile c ++ [utf8_encode (json_dumps ack ++ nl)] /\
        (_command_queue c' = _command_queue c \/
         ack = ack_ok /\ exists a, from_handler a /\ _command_queue c' = _command_queue c ++ [a])
  end.
Proof.
  unfold Server.dispatch.
  repeat (innermost_case; simpl; try reflexivity);
    try (eexists; split; [reflexivity|left; reflexivity]).
  - eexists; split; [reflexivity|]. right. split; [reflexivity|].
    eexists; split; [|reflexivity]. left. eexists; split; [|reflexivity].
    by apply String.eqb_neq.
  - eexists; split; [reflexivity|]. right. split; [reflexivity|].
    eexists; split; [|reflexivity]. right. do 2 eexists; split; [|reflexivity].
    by apply String.eqb_neq.
Qed.

Lemma handle_line_effect (raw : bytes) (c : conn) :
  match handle_line raw c with
  | Raised c' => c' = c
  | Next c' =>
      c' = c \/
      exists ack, wfile c' = wfile c ++ [utf8_encode (json_dumps ack ++ nl)] /\
        (_command_queue c' = _command_queue c \/
         ack = ack_ok /\ exists a, from_handler a /\ _command_queue c' = _command_queue c ++ [a])
  end.
Proof.
  unfold Server.handle_line.
  destruct (utf8_decode raw) as [text|].
  - destruct (String.eqb (strip text) ""); [left; reflexivity|].
    destruct (json_loads (strip text)) as [msg|].
    + pose proof (dispatch_effect msg c) as H.
      destruct (Server.dispatch _ msg c); [right|]; exact H.
    + right. eexists; split; [reflexivity|left; reflexivity].
  - right. eexists; split; [reflexivity|left; reflexivity].
Qed.

(** X5.  A line either ends the handler, with nothing written and nothing
    enqueued for it, or is got through; an action is enqueued only together
    with the acknowledgment [{"ok": true}], one action at most, of one of the
    two shapes the handler builds. *)
Theorem enqueue_goes_with_ok (raw : bytes) (c : conn) :
  match handle_line raw c with
  | Raised c' => c' = c
  | Next c' =>
      c' = c \/
      exists ack, wfile c' = wfile c ++ [utf8_encode (json_dumps ack ++ nl)] /\
        (_command_queue c' = _command_queue c \/
         ack = ack_ok /\ exists a, from_handler a /\ _command_queue c' = _command_queue c ++ [a])
  end.
Proof. apply handle_line_effect. Qed.

Lemma handle_line_enqueued raw c :
  match handle_line raw c with
  | Next c' | Raised c' => _command_queue c' = _command_queue c ++ enqueued raw
  end.
Proof.
  pose proof (handle_line_extend SHARED_SECRET raw c empty) as H.
  rewrite extend_empty in H. rewrite H. unfold Server.enqueued.
  destruct (Server.handle_line _ raw empty); reflexivity.
Qed.

(** X6.  Whatever the lines are, what the handler has written and enqueued
    when it ends is what the lines it read produce one by one, in their
    order: all the lines when it ends at the end of the input, the lines up
    to the one that raised otherwise. *)
Theorem handler_output_follows_the_lines (rfile : list bytes) (c : conn) :
  exists n,
    wfile (handle rfile c).2 = wfile c ++ flat_map written (take n rfile) /\
    _command_queue (handle rfile c).2 = _command_queue c ++ flat_map enqueued (take n rfile) /\
    ((handle rfile c).1 = EndOfInput -> take n rfile = rfile).
Proof.
  revert c. induction rfile as [|raw rest IH]; intros c.
  - exists 0. simpl. rewrite !app_nil_r. done.
  - simpl. pose proof (handle_line_written SHARED_SECRET raw c) as Hw.
    pose proof (handle_line_enqueued raw c) as Hq.
    destruct (Server.handle_line _ raw c) as [c'|c'].
    + destruct (IH c') as (n & H1 & H2 & H3). exists (S n). simpl.
      rewrite H1, H2, Hw, Hq, <- !app_assoc. repeat split. intros He. by rewrite H3.
    + exists 1. simpl. rewrite take_0, !app_nil_r. simpl. done.
Qed.

(** X7.  A line that carries JSON which is no object (a number, a string, a
    list, [null]) ends the handler: it gets no acknowledgment, nothing is
    enqueued, and the lines after it are not read. *)
Theorem non_object_ends_the_handler (pre post : list bytes) (raw : bytes) (c c1 : conn) :
  carries_no_object raw ->
  handle pre c = (EndOfInput, c1) ->
  handle (pre ++ raw :: post) c = (HandlerError, c1).
Proof.
  intros (text & v & Hd & Hne & Hj & Hv) Hpre.
  rewrite (handle_app SHARED_SECRET pre _ c c1 Hpre). simpl.
  unfold Server.handle_line. rewrite Hd, Hj.
  apply String.eqb_neq in Hne. rewrite Hne.
  destruct v; try reflexivity. by destruct (Hv d).
Qed.

(** X8.  An authorized request that is no activation enqueues nothing: a
    ping gets [{"ok": true, "pong": true}], an action that is none of the
    three gets the error [unknown_action]. *)
Theorem ping_and_unknown_enqueue_nothing (raw : bytes) (msg : dict) (c : conn) :
  carries raw msg ->
  unauthorized SHARED_SECRET msg = false ->
  eq_str (get msg "action") "activate_vset" = false ->
  eq_str (get msg "action") "activate_pair" = false ->
  handle_line raw c =
    Next (_send (if eq_str (get msg "action") "ping" then ack_pong
                 else ack_error "unknown_action") c) /\
  _command_queue (_send ack_pong c) = _command_queue c.
Proof.
  intros (text & Hd & Hne & Hj) Hau Hv Hp. split; [|reflexivity].
  unfold Server.handle_line. rewrite Hd, Hj.
  apply String.eqb_neq in Hne. rewrite Hne.
  unfold Server.dispatch. rewrite Hau, Hv, Hp.
  destruct (eq_str (get msg "action") "ping"); reflexivity.
Qed.


End ServerMore.

Section ServerSecret.

Import Server.

Context `{L : Lib}.

(** X10.  With a secret configured, a line whose token is the secret is
    handled as it is with no secret configured; the token takes no part in
    what is enqueued. *)
Theorem matching_token_is_transparent (secret : string) (raw : bytes) (c : conn) :
  (forall msg, carries raw msg -> get msg "token" = VStr secret) ->
  handle_line (Some secret) raw c = handle_line None raw c.
Proof.
  intros Htok. unfold handle_line.
  destruct (utf8_decode raw) as [text|] eqn:Hd; [|reflexivity].
  destruct (String.eqb (strip text) "") eqn:Hb; [reflexivity|].
  destruct (json_loads (strip text)) as [v|] eqn:Hj; [|reflexivity].
  destruct v; try reflexivity.
  unfold dispatch, unauthorized.
  rewrite (Htok d).
  - simpl. rewrite String.eqb_refl. reflexivity.
  - exists text. apply String.eqb_neq in Hb. done.
Qed.

(** A token that is not the secret is rejected. *)
Lemma wrong_token_rejected (secret : string) (raw : bytes) (msg : dict)
    (c : conn) :
  carries raw msg ->
  get msg "token" <> VStr secret ->
  handle_line (Some secret) raw c = Next (_send (ack_error "unauthorized") c).
Proof.
  intros (text & Hd & Hne & Hj) Htok.
  unfold handle_line. rewrite Hd, Hj. apply String.eqb_neq in Hne. rewrite Hne.
  unfold dispatch, unauthorized.
  assert (eq_str (get msg "token") secret = false) as ->; [|reflexivity].
  destruct (get msg "token"); try reflexivity.
  simpl. apply String.eqb_neq. congruence.
Qed.

End ServerSecret.


(** ** From the handler to the executor *)

Section ServerToExecutor.

Context `{L : Lib}.

Lemma from_handler_loop_body use_group select a st :
  Server.from_handler a -> Executor.loop_body use_group select a st <> None.
Proof.
  intros [(v & Hv & ->)|(g & n & Hn & ->)]; unfold Executor.loop_body; simpl.
  - unfold or_empty; simpl. destruct (String.eqb v ""); simpl; by case_match.
  - unfold or_empty; simpl.
    destruct (String.eqb g ""), (String.eqb n ""); simpl; by case_match.
Qed.

Lemma drain_from_handler use_group select q st :
  Forall Server.from_handler q ->
  (Executor.drain use_group select q st).1 = Executor.QueueEmpty /\
  Executor._command_queue (Executor.drain use_group select q st).2 = [].
Proof.
  intros Hq. revert st. induction Hq as [|a q Ha _ IH]; intros st; simpl; [done|].
  destruct (Executor.loop_body use_group select a (Executor.with_queue q st)) eqn:Hb.
  - apply IH.
  - by apply from_handler_loop_body in Hb.
Qed.

Lemma handle_from_handler secret rfile c :
  Forall Server.from_handler (Server._command_queue c) ->
  Forall Server.from_handler (Server._command_queue (Server.handle secret rfile c).2).
Proof.
  revert c. induction rfile as [|raw rest IH]; intros c Hc; simpl; [exact Hc|].
  pose proof (handle_line_effect secret raw c) as H.
  destruct (Server.handle_line secret raw c) as [c'|c'].
  - apply IH. destruct H as [->|(ack & _ & [->|(_ & a & Ha & ->)])]; try done.
    apply Forall_app. split; [exact Hc|]. by constructor.
  - simpl. by subst.
Qed.

(** X11.  Whatever lines the connections carry, every action the handlers
    enqueue is one the executor gets through: a run of [_dispatch_actions]
    on what they enqueued raises nothing and leaves the queue empty. *)
Theorem enqueued_actions_never_raise
    (secret : option string) (use_group : bool)
    (select : list string -> string -> option string)
    (rfile : list bytes) (st : Executor.state) :
  Forall Server.from_handler (Server._command_queue (Server.handle secret rfile Server.empty).2) /\
  (Executor.drain use_group select
     (Server._command_queue (Server.handle secret rfile Server.empty).2) st).1
    = Executor.QueueEmpty /\
  Executor._command_queue
    (Executor.drain use_group select
       (Server._command_queue (Server.handle secret rfile Server.empty).2) st).2 = [].
Proof.
  assert (H : Forall Server.from_handler
                (Server._command_queue (Server.handle secret rfile Server.empty).2)).
  { apply handle_from_handler. constructor. }
  split; [exact H|]. by apply drain_from_handler.
Qed.

End ServerToExecutor.

(** ** From the client to the actuator *)

Section ClientToActuator.

Context `{L : Lib}.

Lemma get_with_token token msg k :
  k <> "token" -> get (Client.with_token token msg) k = get msg k.
Proof.
  intros Hk. unfold Client.with_token. destruct token as [t|]; [|reflexivity].
  destruct (String.eqb t ""); [reflexivity|].
  induction msg as [|[k' v] msg IH].
  - change (get ([] ++ [("token", VStr t)]) k)
      with (if String.eqb "token" k then VStr t else VNone).
    destruct (String.eqb_spec "token" k); [congruence|reflexivity].
  - change (get (((k', v) :: msg) ++ [("token", VStr t)]) k)
      with (if String.eqb k' k then v else get (msg ++ [("token", VStr t)]) k).
    change (get ((k', v) :: msg) k) with (if String.eqb k' k then v else get msg k).
    destruct (String.eqb k' k); [reflexivity|exact IH].
Qed.

Lemma request_token group name token :
  get (Client.request group name token) "token" =
    match token with
    | Some t => if String.eqb t "" then VNone else VStr t
    | None => VNone
    end.
Proof.
  unfold Client.request, Client.with_token.
  destruct token as [t|]; [|reflexivity]. destruct (String.eqb t ""); reflexivity.
Qed.

Lemma as_str_or_empty_str s : as_str (or_empty (VStr s)) = Some s.
Proof.
  unfold or_empty. simpl. destruct (String.eqb s "") eqn:Hs; simpl; [|reflexivity].
  apply String.eqb_eq in Hs as ->. reflexivity.
Qed.

(** X12.  A request of the client that the server reads back as sent, with
    no secret configured or with the client's token the secret, and with a
    name that is not blank: the handler enqueues the pair with both fields
    stripped and acknowledges with [{"ok": true}]; the client, given that
    acknowledgment, returns it; and the executor derives from the enqueued
    action the name of the stripped fields. *)
Theorem pair_request_round_trip
    (secret token : option string) (use_group : bool) (group name : string)
    (host : string) (port : Z) (c : Server.conn) (ack : string) :
  Server.carries (Client.request_line group name token) (Client.request group name token) ->
  (secret = None \/ exists t, secret = Some t /\ token = Some t /\ t <> "") ->
  strip name <> "" ->
  strip (strip name) = strip name ->
  strip (strip group) = strip group ->
  utf8_decode (utf8_encode (json_dumps Server.ack_ok ++ nl)) = Some ack ->
  json_loads (strip ack) = Some Server.ack_ok ->
  let action :=
    [("action", VStr "activate_pair"); ("group", VStr (strip group));
     ("name", VStr (strip name))] in
  Server.handle_line secret (Client.request_line group name token) c
    = Server.Next (Server._send Server.ack_ok (Server._enqueue_action action c)) /\
  (Client.send_activate_vset host port group name token
     (Client.Received (utf8_encode (json_dumps Server.ack_ok ++ nl))))
    = (Client.Returns Server.ack_ok,
       [Client.create_connection host port;
        Client.sendall (Client.request_line group name token);
        Client.shutdown_wr; Client.recv; Client.close]) /\
  Executor.derived_name use_group action
    = Some (Executor._derive_vset_name use_group (strip group) (strip name)).
Proof.
  intros (text & Hd & Hne & Hj) Hauth Hname Hin Hig Hack Hloads action.
  repeat split.
  - unfold Server.handle_line. rewrite Hd, Hj.
    apply String.eqb_neq in Hne. rewrite Hne.
    unfold Server.dispatch.
    assert (Server.unauthorized secret (Client.request group name token) = false) as ->.
    { unfold Server.unauthorized. rewrite request_token.
      destruct Hauth as [->|(t & -> & -> & Ht)]; [reflexivity|].
      apply String.eqb_neq in Ht. rewrite Ht. simpl. rewrite String.eqb_refl. reflexivity. }
    unfold Client.request. rewrite !get_with_token by discriminate. simpl.
    rewrite !as_str_or_empty_str. apply String.eqb_neq in Hname. rewrite Hname.
    reflexivity.
  - unfold Client.send_activate_vset. rewrite Hack, Hloads. reflexivity.
  - unfold Executor.derived_name, action. simpl. rewrite !as_str_or_empty_str. simpl.
    rewrite Hin, Hig. apply String.eqb_neq in Hname. rewrite Hname. reflexivity.
Qed.

(** X13.  A server configured with the empty string as its secret rejects
    every request of the client: the client sends no token when its token is
    empty or absent, and any token it sends is not empty. *)
Theorem empty_secret_rejects_the_client
    (token : option string) (group name : string) (c : Server.conn) :
  Server.carries (Client.request_line group name token) (Client.request group name token) ->
  Server.handle_line (Some "") (Client.request_line group name token) c
    = Server.Next (Server._send (Server.ack_error "unauthorized") c).
Proof.
  intros Hc.
  apply (wrong_token_rejected "" _ _ c Hc).
  rewrite request_token. destruct token as [t|]; [|discriminate].
  destruct (String.eqb t "") eqn:Ht; [discriminate|].
  apply String.eqb_neq in Ht. congruence.
Qed.

(** X14.  Whatever the network does, the client opens its connection first
    and, once it is open, closes it last and once; nothing is received
    before the request was sent and the write side shut down. *)
Theorem socket_is_closed_once
    (host : string) (port : Z) (group name : string) (token : option string)
    (n : Client.net) :
  exists used,
    used `prefix_of` [Client.sendall (Client.request_line group name token);
                      Client.shutdown_wr; Client.recv] /\
    (Client.send_activate_vset host port group name token n).2 =
      Client.create_connection host port ::
        match n with
        | Client.ConnectFails _ => []
        | _ => used ++ [Client.close]
        end /\
    (forall resp, (Client.send_activate_vset host port group name token n).1
                  = Client.Returns resp -> length used = 3).
Proof.
  destruct n as [e|e|e|e|ack]; simpl.
  - exists []. split; [by eexists|]. split; [reflexivity|]. intros resp; discriminate.
  - exists [Client.sendall (Client.request_line group name token)].
    split; [by eexists|]. split; [reflexivity|]. intros resp; discriminate.
  - exists [Client.sendall (Client.request_line group name token); Client.shutdown_wr].
    split; [by eexists|]. split; [reflexivity|]. intros resp; discriminate.
  - eexists. split; [reflexivity|]. split; [reflexivity|]. intros resp; discriminate.
  - eexists. split; [reflexivity|]. split; [reflexivity|]. reflexivity.
Qed.

End ClientToActuator.


(** ** The intent router: what it returns *)

Section RouterMore.

Import Router.

Variable COMMAND_MAP : dict.

(** X15.  Every match the router returns is an entry of the catalog under
    the phrase it returns, with a score of 0.65 or more; anything else it
    returns is [(None, None, None)]. *)
Theorem router_answers_from_the_catalog
    (intent_classifier : string -> string * Q) (index_search : string -> Q * Z)
    (text : string) (v : value) (m : option string) (sc : option Q) :
  get_command COMMAND_MAP intent_classifier index_search text = Some (v, m, sc) ->
  (v, m, sc) = no_match \/
  exists phrase score,
    m = Some phrase /\ sc = Some score /\
    subscript COMMAND_MAP phrase = Some v /\
    Qle_bool (65 # 100) score = true.
Proof.
  unfold get_command, classify_intent, semantic_match.
  destruct (intent_classifier text) as [label score].
  destruct (Qle_bool (75 # 100) score && contains COMMAND_MAP label) eqn:Hhit.
  - destruct (subscript COMMAND_MAP label) as [v'|] eqn:Hv; simpl; [|discriminate].
    intros [= <- <- <-]. right. exists label, score. repeat split; [exact Hv|].
    apply andb_true_iff in Hhit as [Hs _].
    apply Qle_bool_iff. apply Qle_bool_iff in Hs.
    eapply Qle_trans; [|exact Hs]. by apply Qle_bool_iff.
  - destruct (index_search text) as [sim i].
    destruct (index (phrases COMMAND_MAP) i) as [phrase|]; simpl; [|discriminate].
    destruct (Qle_bool (65 # 100) sim) eqn:Hs; simpl.
    + destruct (String.eqb phrase ""); simpl; [intros [= <- <- <-]; by left|].
      destruct (subscript COMMAND_MAP phrase) as [v'|] eqn:Hv; simpl; [|discriminate].
      intros [= <- <- <-]. right. exists phrase, sim. done.
    + intros [= <- <- <-]. by left.
Qed.

(** X16.  When the classifier is at 0.75 or more on a label of the catalog,
    the router returns the entry of that label with the classifier's score
    and the search takes no part: the result is the same whatever the search
    gives, an index out of range included. *)
Theorem classifier_hit_skips_the_search
    (intent_classifier : string -> string * Q) (index_search : string -> Q * Z)
    (text label : string) (score : Q) :
  intent_classifier text = (label, score) ->
  Qle_bool (75 # 100) score = true ->
  contains COMMAND_MAP label = true ->
  exists v,
    subscript COMMAND_MAP label = Some v /\
    forall index_search',
      get_command COMMAND_MAP intent_classifier index_search' text
        = Some (v, Some label, Some score).
Proof.
  intros Hc Hs Hl.
  destruct (get_command_by_label COMMAND_MAP intent_classifier index_search
              text label score Hc Hs Hl) as (v & Hv & _).
  exists v. split; [exact Hv|]. intros index_search'.
  destruct (get_command_by_label COMMAND_MAP intent_classifier index_search'
              text label score Hc Hs Hl) as (v' & Hv' & ->).
  congruence.
Qed.

(** X17.  A label that the catalog does not have counts for nothing, however
    sure the classifier is: the result is the one of the search alone. *)
Theorem unknown_label_is_ignored
    (intent_classifier intent_classifier' : string -> string * Q)
    (index_search : string -> Q * Z) (text : string) :
  contains COMMAND_MAP (intent_classifier text).1 = false ->
  contains COMMAND_MAP (intent_classifier' text).1 = false ->
  get_command COMMAND_MAP intent_classifier index_search text
    = get_command COMMAND_MAP intent_classifier' index_search text.
Proof.
  unfold get_command, classify_intent.
  destruct (intent_classifier text) as [l s], (intent_classifier' text) as [l' s'].
  simpl. intros -> ->. rewrite !andb_false_r. reflexivity.
Qed.

End RouterMore.

(** ** The audio queue: what is dropped and what is yielded *)

Section AudioMore.

Import Audio.

Lemma nonempty_app l k : nonempty (l ++ k) = nonempty l ++ nonempty k.
Proof. unfold nonempty. apply List.filter_app. Qed.

Lemma drops_app l k : drops (l ++ k) = drops l + drops k.
Proof. unfold drops. rewrite List.filter_app, length_app. reflexivity. Qed.

Lemma step_yielded_nonempty s m :
  yielded s = nonempty (got s) -> yielded (step s m) = nonempty (got (step s m)).
Proof.
  intros H. destruct m as [indata status| |]; simpl; try done.
  unfold resume. destruct (chunk_generator s); simpl; try done.
  - destruct (shutdown_event (shared s)); done.
  - destruct (audio_queue (shared s)) as [|chunk q]; simpl; [done|].
    rewrite nonempty_app, H. unfold nonempty at 3. simpl.
    destruct (String.eqb chunk ""); simpl; by rewrite ?app_nil_r.
Qed.

Lemma yielded_are_nonempty (moves : list move) :
  yielded (run moves initial) = nonempty (got (run moves initial)) /\
  Forall (fun chunk => chunk <> "") (yielded (run moves initial)).
Proof.
  assert (H : yielded (run moves initial) = nonempty (got (run moves initial))).
  { induction moves as [|m moves IH] using rev_ind; [reflexivity|].
    rewrite run_snoc. apply step_yielded_nonempty, IH. }
  split; [exact H|]. rewrite H. unfold nonempty.
  apply List.Forall_forall. intros chunk [_ Hc]%List.filter_In.
  apply negb_true_iff, String.eqb_neq in Hc. exact Hc.
Qed.

(** X18.  The chunks the generator yields are the chunks it took from the
    queue that are not empty, in their order: an empty chunk is taken and
    never yielded. *)
Theorem feed_yields_the_nonempty_chunks (moves : list move) :
  yielded (run moves initial) = nonempty (got (run moves initial)) /\
  Forall (fun chunk => chunk <> "") (yielded (run moves initial)).
Proof. apply yielded_are_nonempty. Qed.

Lemma step_account s m :
  length (got (step s m)) + length (audio_queue (shared (step s m)))
    + drops (stderr (shared (step s m)))
  = length (got s) + length (audio_queue (shared s)) + drops (stderr (shared s))
    + match m with Callback _ _ => 1 | _ => 0 end.
Proof.
  destruct m as [indata status| |]; simpl.
  - unfold audio_callback. destruct (put_nowait indata (audio_queue (shared s))) as [q|] eqn:Hp.
    + unfold put_nowait in Hp. case_match; [discriminate|]. injection Hp as <-.
      simpl. rewrite length_app. simpl.
      destruct status; rewrite ?drops_app; unfold drops; simpl; lia.
    + simpl. destruct status; rewrite ?drops_app; unfold drops; simpl; lia.
  - lia.
  - unfold resume. destruct (chunk_generator s); simpl; try lia.
    + destruct (shutdown_event (shared s)); simpl; lia.
    + destruct (audio_queue (shared s)) as [|chunk q] eqn:Hq; simpl; rewrite ?Hq; simpl.
      * lia.
      * rewrite length_app. simpl. lia.
Qed.

(** X19.  Every frame pushed is accounted for: taken by the generator, still
    in the queue, or dropped with one warning printed for it. *)
Theorem every_frame_is_taken_queued_or_reported (moves : list move) :
  length (pushed moves)
  = length (got (run moves initial))
    + length (audio_queue (shared (run moves initial)))
    + drops (stderr (shared (run moves initial))).
Proof.
  induction moves as [|m moves IH] using rev_ind; [reflexivity|].
  rewrite run_snoc, pushed_snoc, length_app, step_account, IH.
  destruct m; simpl; lia.
Qed.

Lemma step_no_drop s m :
  length (audio_queue (shared s)) < maxsize ->
  got (step s m) ++ audio_queue (shared (step s m))
    = (got s ++ audio_queue (shared s))
        ++ match m with Callback indata _ => [indata] | _ => [] end /\
  drops (stderr (shared (step s m))) = drops (stderr (shared s)).
Proof.
  intros Hroom. destruct m as [indata status| |]; simpl.
  - unfold audio_callback. rewrite put_nowait_room by done. simpl.
    rewrite app_assoc. split; [reflexivity|].
    destruct status; rewrite ?drops_app; unfold drops; simpl; lia.
  - by rewrite app_nil_r.
  - rewrite app_nil_r. split; [|unfold resume; repeat case_match; reflexivity].
    unfold resume. destruct (chunk_generator s); simpl; try done.
    + destruct (shutdown_event (shared s)); done.
    + destruct (audio_queue (shared s)) as [|chunk q] eqn:Hq; simpl; [by rewrite Hq|].
      rewrite <- app_assoc. reflexivity.
Qed.

(** X20.  As long as no more frames were pushed than the queue holds,
    nothing is dropped and no warning is printed: the frames taken followed
    by the frames queued are the frames pushed. *)
Theorem nothing_is_dropped_within_capacity (moves : list move) :
  length (pushed moves) <= maxsize ->
  got (run moves initial) ++ audio_queue (shared (run moves initial)) = pushed moves /\
  drops (stderr (shared (run moves initial))) = 0.
Proof.
  induction moves as [|m moves IH] using rev_ind; [done|].
  rewrite run_snoc, pushed_snoc, length_app. intros Hlen.
  destruct IH as [IH1 IH2]; [lia|].
  pose proof (f_equal length IH1) as Hl. rewrite length_app in Hl.
  destruct m as [indata status| |].
  - destruct (step_no_drop (run moves initial) (Callback indata status)) as [H1 H2].
    { simpl in Hlen. lia. }
    rewrite H1, H2, IH1. done.
  - simpl. rewrite app_nil_r. done.
  - assert (Hres : forall s, got (resume s) ++ audio_queue (shared (resume s))
                             = got s ++ audio_queue (shared s) /\
                             stderr (shared (resume s)) = stderr (shared s)).
    { intros s. unfold resume. destruct (chunk_generator s); simpl; try done.
      - destruct (shutdown_event (shared s)); done.
      - destruct (audio_queue (shared s)) as [|chunk q] eqn:Hq; simpl; [by rewrite Hq|].
        rewrite <- app_assoc. done. }
    simpl. destruct (Hres (run moves initial)) as [-> ->].
    rewrite app_nil_r. done.
Qed.

End AudioMore.


(** ** The recognition client: what is sent *)

Section AsrFacts.

Import Asr.

Variable encoding_value : Z.
Variable int_of_product : Q -> Z -> Z.

Local Abbreviation request_stream := (request_stream encoding_value int_of_product).
Local Abbreviation silence_tail := (silence_tail int_of_product).

Lemma audio_requests_nonempty items :
  audio_requests items = map AudioContent (Audio.nonempty (map (default "") items)).
Proof.
  induction items as [|item rest IH]; [reflexivity|].
  simpl. unfold Audio.nonempty in *. simpl.
  destruct (String.eqb (default "" item) ""); simpl; by rewrite IH.
Qed.

Lemma nonempty_id chunks :
  Forall (fun chunk => chunk <> "") chunks -> Audio.nonempty chunks = chunks.
Proof.
  induction 1 as [|chunk rest Hc _ IH]; [reflexivity|].
  unfold Audio.nonempty in *. simpl.
  apply String.eqb_neq in Hc. rewrite Hc. simpl. by rewrite IH.
Qed.

Lemma zeros_empty n : zeros n = "" -> n = 0.
Proof. destruct n; [reflexivity|discriminate]. Qed.

(** X21.  In the live pipeline, which asks for no silence tail, the requests
    to the backend are the configuration first and then one audio message
    for each chunk the feed yielded, in the order of the chunks, and nothing
    else. *)
Theorem live_requests_are_the_yielded_chunks
    (moves : list Audio.move) (sample_rate_hz : Z) (language_code : string) :
  request_stream (map Some (Audio.yielded (Audio.run moves Audio.initial)))
    sample_rate_hz language_code 0
  = StreamingConfig (_config encoding_value sample_rate_hz language_code) true
      :: map AudioContent (Audio.yielded (Audio.run moves Audio.initial)).
Proof.
  unfold Asr.request_stream, Asr.silence_tail. simpl. rewrite app_nil_r.
  rewrite audio_requests_nonempty, map_map. simpl. rewrite map_id.
  rewrite nonempty_id; [reflexivity|].
  apply yielded_are_nonempty.
Qed.

(** X22.  The first request is the configuration, with interim results
    asked for, and no other request is one; an audio message is never empty,
    except the silence tail when the tail is asked for and its length comes
    to no sample. *)
Theorem only_an_empty_tail_is_an_empty_message
    (items : list (option bytes)) (sample_rate_hz : Z) (language_code : string)
    (append_silence_tail_sec : Q) :
  head (request_stream items sample_rate_hz language_code append_silence_tail_sec)
    = Some (StreamingConfig (_config encoding_value sample_rate_hz language_code) true) /\
  (forall cfg b,
     In (StreamingConfig cfg b)
        (tail (request_stream items sample_rate_hz language_code append_silence_tail_sec)) ->
     False) /\
  (In (AudioContent "")
      (request_stream items sample_rate_hz language_code append_silence_tail_sec) ->
   (0 < append_silence_tail_sec)%Q /\
   (int_of_product append_silence_tail_sec sample_rate_hz <= 0)%Z).
Proof.
  unfold Asr.request_stream. simpl. split; [reflexivity|].
  rewrite audio_requests_nonempty. split.
  - intros cfg b [Hin|Hin]%in_app_or.
    + apply in_map_iff in Hin as (x & Hx & _). discriminate.
    + unfold Asr.silence_tail in Hin. destruct (Qlt_le_dec _ _); simpl in Hin; [|done].
      destruct Hin as [?|[]]; discriminate.
  - intros [Hc|[Hin|Hin]%in_app_or]; [discriminate| |].
    + apply in_map_iff in Hin as (x & [= ->] & Hx).
      unfold Audio.nonempty in Hx. apply List.filter_In in Hx as [_ Hx]. done.
    + unfold Asr.silence_tail in Hin.
      destruct (Qlt_le_dec 0 append_silence_tail_sec) as [Hpos|]; simpl in Hin; [|done].
      destruct Hin as [[= Hz]|[]]. apply zeros_empty in Hz.
      split; [exact Hpos|]. lia.
Qed.

Lemma transcripts_with_alternatives results :
  transcripts (with_alternatives results) = transcripts results.
Proof.
  induction results as [|r rest IH]; [reflexivity|].
  unfold with_alternatives in *. simpl.
  destruct (alternatives r) eqn:Ha; simpl; rewrite ?Ha, IH; reflexivity.
Qed.

Lemma transcripts_nil results : with_alternatives results = [] -> transcripts results = [].
Proof. intros H. rewrite <- transcripts_with_alternatives, H. reflexivity. Qed.

(** X23.  In the batch transcription the results without alternatives count
    for nothing: the text is the one of the response without them, the empty
    text when no result has an alternative; and no text is returned without
    a response, when the channel is not ready or the call fails. *)
Theorem transcribe_ignores_results_without_alternatives
    (ready : bool) (results : response) :
  transcribe ready (inr results) = transcribe ready (inr (with_alternatives results)) /\
  (with_alternatives results = [] -> (transcribe ready (inr results)).1 = "") /\
  (forall details, (transcribe ready (inl details)).1 = "") /\
  (forall outcome, (transcribe false outcome).1 = "").
Proof.
  repeat split.
  - unfold transcribe. destruct ready; [|reflexivity].
    rewrite transcripts_with_alternatives.
    destruct results as [|r rest]; [reflexivity|].
    destruct (with_alternatives (r :: rest)) eqn:Hw; [|reflexivity].
    rewrite (transcripts_nil _ Hw). reflexivity.
  - intros Hw. unfold transcribe. destruct ready; [|reflexivity].
    destruct results as [|r rest]; [reflexivity|].
    change (join (transcripts (r :: rest)) = "").
    rewrite (transcripts_nil _ Hw). reflexivity.
  - intros details. destruct ready; reflexivity.
Qed.

End AsrFacts.


(** ** The pipeline worker: what is routed and what is sent *)

Section PipelineFacts.

Import Pipeline.

Context `{L : Lib}.
Variable ENABLE_VRED : bool.
Variable VRED_TOKEN : option string.
Variable COMMAND_MAP : dict.
Variable intent_classifier : string -> string * Q.
Variable index_search : string -> Q * Z.
Variable importable : bool.
Variable network : nat -> Client.net.

Local Abbreviation body :=
  (body ENABLE_VRED VRED_TOKEN COMMAND_MAP intent_classifier index_search importable network).
Local Abbreviation loop :=
  (loop ENABLE_VRED VRED_TOKEN COMMAND_MAP intent_classifier index_search importable network).
Local Abbreviation activate := (activate ENABLE_VRED VRED_TOKEN importable network).
Local Abbreviation send := (send VRED_TOKEN).
Local Abbreviation get_command := (get_command COMMAND_MAP intent_classifier index_search).
Local Abbreviation process_audio_stream :=
  (process_audio_stream ENABLE_VRED VRED_TOKEN COMMAND_MAP intent_classifier index_search
     importable network).

Lemma finals_snoc out p :
  finals (out ++ [p]) = finals out ++ match p with Final text => [text] | _ => [] end.
Proof. unfold finals. rewrite omap_app. destruct p; reflexivity. Qed.

Lemma decisions_snoc out p :
  decisions (out ++ [p]) = decisions out + if is_decision_line p then 1 else 0.
Proof.
  unfold decisions. rewrite List.filter_app, length_app. simpl.
  destruct (is_decision_line p); reflexivity.
Qed.

Lemma connections_app l k :
  Client.connections (l ++ k) = Client.connections l + Client.connections k.
Proof. unfold Client.connections. rewrite List.filter_app, length_app. reflexivity. Qed.

Ltac effect_done :=
  simpl;
  rewrite ?finals_snoc, ?decisions_snoc, ?app_nil_r, ?connections_app;
  simpl; repeat split; first [done | lia].

Lemma send_connections group name n : Client.connections (send group name n).2 = 1.
Proof. destruct n; reflexivity. Qed.

(** What [activate] adds: no [Final] line and no decision line, and one
    connection at most, counted in [sent]. *)
Lemma activate_effect group name st :
  finals (stdout (state_of (activate group name st))) = finals (stdout st) /\
  decisions (stdout (state_of (activate group name st))) = decisions (stdout st) /\
  Client.connections (calls (state_of (activate group name st))) + sent st
    = Client.connections (calls st) + sent (state_of (activate group name st)) /\
  sent (state_of (activate group name st)) <= S (sent st).
Proof.
  unfold Pipeline.activate.
  destruct ENABLE_VRED; [|effect_done].
  destruct importable; [|effect_done].
  pose proof (send_connections group name (network (sent st))) as Hc.
  destruct (Pipeline.send _ group name (network (sent st))) as [out cs]. simpl in Hc.
  destruct out as [resp|e]; [|effect_done].
  destruct resp; try effect_done.
  destruct (truthy (get d "ok")); effect_done.
Qed.

(** What one transcript adds. *)
Lemma body_effect transcript st :
  let st' := state_of (body transcript st) in
  (exists new, finals (stdout st') = finals (stdout st) ++ new /\ length new <= 1 /\
     sent st' <= sent st + length new /\
     (forall st1, body transcript st = Next st1 ->
        decisions (stdout st') = decisions (stdout st) + length new)) /\
  Client.connections (calls st') + sent st = Client.connections (calls st) + sent st'.
Proof.
  unfold Pipeline.body.
  destruct (negb (truthy (get transcript "is_final")));
    [simpl; split; [exists []; rewrite app_nil_r; simpl; repeat split; lia|lia]|].
  destruct (text_of transcript) as [text|];
    [|simpl; split; [exists []; rewrite app_nil_r; simpl; repeat split; lia|lia]].
  destruct (String.eqb text "");
    [simpl; split; [exists []; rewrite app_nil_r; simpl; repeat split; lia|lia]|].
  assert (Hraised : forall st1,
            st1 = say (Final text) st ->
            (exists new, finals (stdout st1) = finals (stdout st) ++ new /\ length new <= 1 /\
               sent st1 <= sent st + length new /\
               (forall st2, Raised st1 = Next st2 ->
                  decisions (stdout st1) = decisions (stdout st) + length new)) /\
            Client.connections (calls st1) + sent st = Client.connections (calls st) + sent st1).
  { intros st1 ->. simpl. rewrite finals_snoc. split; [|lia].
    exists [text]. simpl. repeat split; try lia. discriminate. }
  destruct (Pipeline.get_command _ _ _ text) as [[[vset m] sc]|]; [|by apply Hraised].
  destruct (truthy vset).
  - destruct (item vset 0) as [group|]; [|by apply Hraised].
    destruct (item vset 1) as [name|]; [|by apply Hraised].
    destruct sc as [sc|]; [|by apply Hraised].
    destruct (activate_effect group name
                (say (Matched m sc group name) (say (Final text) st)))
      as (Hf & Hd & Hc & Hs).
    simpl in Hf, Hd, Hc, Hs.
    rewrite !finals_snoc, app_nil_r in Hf. rewrite !decisions_snoc in Hd. simpl in Hd.
    cbv zeta. split; [|lia].
    exists [text]. rewrite Hf, Hd. simpl. repeat split; lia.
  - simpl. rewrite !finals_snoc, !decisions_snoc, app_nil_r. simpl. split; [|lia].
    exists [text]. simpl. repeat split; lia.
Qed.

Lemma body_skipped (transcript : dict) (rest : list dict) (st : state) :
  skipped transcript ->
  body transcript st = Next st /\
  loop (transcript :: rest) st = loop rest st.
Proof.
  intros Hs.
  assert (Hb : body transcript st = Next st).
  { unfold Pipeline.body. destruct Hs as [->|Ht]; [reflexivity|].
    destruct (negb _); [reflexivity|]. rewrite Ht. reflexivity. }
  split; [exact Hb|]. simpl. rewrite Hb. reflexivity.
Qed.

(** X24.  A transcript that is not final, or whose text is blank, leaves no
    trace: nothing is printed for it, the router is not asked and nothing is
    sent, and the loop goes on with the next one. *)
Theorem skipped_transcripts_leave_no_trace (transcript : dict) (rest : list dict) (st : state) :
  skipped transcript ->
  body transcript st = Next st /\
  loop (transcript :: rest) st = loop rest st.
Proof. apply body_skipped. Qed.

Lemma loop_effect transcripts st :
  let st' := (loop transcripts st).2 in
  length (finals (stdout st')) <= length (finals (stdout st)) + length transcripts /\
  sent st' + length (finals (stdout st)) <= sent st + length (finals (stdout st')) /\
  Client.connections (calls st') + sent st = Client.connections (calls st) + sent st' /\
  ((loop transcripts st).1 = Exhausted ->
   decisions (stdout st') + length (finals (stdout st))
     = decisions (stdout st) + length (finals (stdout st'))).
Proof.
  revert st. induction transcripts as [|t rest IH]; intros st; simpl.
  - repeat split; lia.
  - destruct (body_effect t st) as ((new & Hf & Hl & Hs & Hd) & Hc).
    destruct (Pipeline.body _ _ _ _ _ _ _ t st) as [st1|st1] eqn:Hb; simpl in *.
    + destruct (IH st1) as (H1 & H2 & H3 & H4).
      specialize (Hd st1 eq_refl). rewrite Hf, length_app in *.
      repeat split; try lia. intros He. specialize (H4 He). lia.
    + rewrite Hf, length_app. repeat split; try lia. discriminate.
Qed.

(** X25.  The worker opens one connection for each request it sends and
    sends one request at most for each [Final] line it prints, so at most one
    for each transcript; when the loop comes to the end of the transcripts,
    each [Final] line has its one decision line, a match or no match. *)
Theorem one_decision_and_one_request_at_most_per_final (transcripts : list dict) :
  Client.connections (calls (process_audio_stream transcripts).2)
    = sent (process_audio_stream transcripts).2 /\
  sent (process_audio_stream transcripts).2
    <= length (finals (stdout (process_audio_stream transcripts).2)) /\
  length (finals (stdout (process_audio_stream transcripts).2)) <= length transcripts /\
  ((process_audio_stream transcripts).1 = Exhausted ->
   decisions (stdout (process_audio_stream transcripts).2)
     = length (finals (stdout (process_audio_stream transcripts).2))).
Proof.
  unfold Pipeline.process_audio_stream.
  pose proof (loop_effect transcripts (say Starting initial)) as H.
  destruct (Pipeline.loop _ _ _ _ _ _ _ transcripts (say Starting initial)) as [e st'].
  simpl in *. rewrite finals_snoc, decisions_snoc, app_nil_r. simpl.
  destruct H as (H1 & H2 & H3 & H4). repeat split; try lia.
  intros He. specialize (H4 He). lia.
Qed.

(** X26.  A request that the network fails ends the worker's loop: with the
    dispatch enabled and the client importable, when a socket call of the
    request for a matched transcript raises, the exception leaves the loop
    after the [Final] and the [Matched] lines, and the transcripts after
    that one are never looked at. *)
Theorem network_failure_ends_the_loop
    (transcript : dict) (rest : list dict) (st : state)
    (text : string) (vset group name : value) (m : option string) (sc : Q) :
  ENABLE_VRED = true ->
  importable = true ->
  truthy (get transcript "is_final") = true ->
  text_of transcript = Some text ->
  text <> "" ->
  get_command text = Some (vset, m, Some sc) ->
  truthy vset = true ->
  item vset 0 = Some group ->
  item vset 1 = Some name ->
  (forall ack, network (sent st) <> Client.Received ack) ->
  (loop (transcript :: rest) st).1 = Escaped /\
  stdout (loop (transcript :: rest) st).2
    = stdout st ++ [Final text; Matched m sc group name] /\
  sent (loop (transcript :: rest) st).2 = S (sent st).
Proof.
  intros He Hi Hf Ht Hne Hg Hv H0 H1 Hnet.
  simpl. unfold Pipeline.body. rewrite Hf, Ht. simpl.
  apply String.eqb_neq in Hne. rewrite Hne.
  fold get_command. rewrite Hg, Hv, H0, H1.
  unfold Pipeline.activate. rewrite He, Hi. simpl.
  destruct (network (sent st)) as [e|e|e|e|ack] eqn:Hn; simpl;
    rewrite <- ?app_assoc; try done.
  by destruct (Hnet ack).
Qed.





End PipelineFacts.

Section PipelineOff.

Import Pipeline.

Context `{L : Lib}.

(** X27.  With [ENABLE_VRED] off the worker never touches the network:
    whatever the transcripts and the router, no socket call is made and no
    request is sent. *)
Theorem demo_mode_makes_no_socket_call
    (token : option string) (COMMAND_MAP : dict)
    (intent_classifier : string -> string * Q) (index_search : string -> Q * Z)
    (importable : bool) (network : nat -> Client.net) (transcripts : list dict) :
  calls (process_audio_stream false token COMMAND_MAP intent_classifier index_search
           importable network transcripts).2 = [] /\
  sent (process_audio_stream false token COMMAND_MAP intent_classifier index_search
          importable network transcripts).2 = 0.
Proof.
  unfold process_audio_stream.
  assert (H : forall st,
            calls (loop false token COMMAND_MAP intent_classifier index_search
                     importable network transcripts st).2 = calls st /\
            sent (loop false token COMMAND_MAP intent_classifier index_search
                    importable network transcripts st).2 = sent st).
  { induction transcripts as [|t rest IH]; intros st; simpl; [done|].
    assert (Hb : calls (state_of (body false token COMMAND_MAP intent_classifier
                                    index_search importable network t st)) = calls st /\
                 sent (state_of (body false token COMMAND_MAP intent_classifier
                                   index_search importable network t st)) = sent st).
    { unfold body, activate. repeat case_match; done. }
    destruct (body false token COMMAND_MAP intent_classifier index_search
                importable network t st) as [st1|st1]; simpl in Hb.
    - destruct (IH st1) as [-> ->]. exact Hb.
    - exact Hb. }
  destruct (H (say Starting initial)) as [Hc Hs].
  destruct (loop false token COMMAND_MAP intent_classifier index_search importable
              network transcripts (say Starting initial)) as [e st']. simpl in *.
  by rewrite Hc, Hs.
Qed.

End PipelineOff.


(** ** More properties at sample inputs *)

Section EvaluatedMore.

Import Samples.

Lemma no_call_repeats_the_one_before_witness :
  Executor.api_calls
    (Executor.ticks (L := Ref.lib) false working
       [[red_pair; red_vset]; [red_pair; blue_pair]] Executor.initial) = ["Red"; "Blue"] /\
  "Red" <> "Blue".
Proof.
  split; [reflexivity|].
  destruct (no_call_repeats_the_one_before (L := Ref.lib) false working
              [[red_pair; red_vset]; [red_pair; blue_pair]]) as [_ H].
  exact (H 0 "Red" "Blue" eq_refl eq_refl).
Defined.

Lemma only_named_activations_reach_the_actuator_witness :
  Executor.derived_name (L := Ref.lib) false ping = None /\
  Executor.loop_body (L := Ref.lib) false working ping Executor.initial
    = Some Executor.initial /\
  Executor.api_calls Executor.initial = [].
Proof.
  split; [reflexivity|]. split; [reflexivity|].
  destruct (only_named_activations_reach_the_actuator (L := Ref.lib) false working
              ping Executor.initial Executor.initial eq_refl eq_refl) as [H _].
  exact H.
Defined.

Lemma malformed_action_ends_the_tick_witness :
  Executor.malformed numbered_pair /\
  Executor.drain (L := Ref.lib) false working [red_pair] Executor.initial
    = (Executor.QueueEmpty,
       {| Executor._command_queue := []; Executor._last_activation := Some "Red";
          Executor.api_calls := ["Red"];
          Executor.stdout := [Executor.PairTo "Interior" "Red" "Red"] |}) /\
  (Executor.drain (L := Ref.lib) false working [red_pair; numbered_pair; blue_pair]
     Executor.initial).1 = Executor.Escaped.
Proof.
  assert (Hm : Executor.malformed numbered_pair).
  { right. split; [reflexivity|]. right. reflexivity. }
  split; [exact Hm|]. split; [reflexivity|].
  destruct (malformed_action_ends_the_tick (L := Ref.lib) false working
              [red_pair] [blue_pair] numbered_pair Executor.initial _ Hm eq_refl)
    as (H & _).
  change ([red_pair; numbered_pair; blue_pair]) with ([red_pair] ++ numbered_pair :: [blue_pair]).
  rewrite H. reflexivity.
Defined.

Lemma handler_output_follows_the_lines_witness :
  (Server.handle (L := Ref.lib) None [red_line; number_line; ping_line] Server.empty).1
    = Server.HandlerError /\
  exists n,
    Server.wfile
      (Server.handle (L := Ref.lib) None [red_line; number_line; ping_line] Server.empty).2
    = flat_map (Server.written (L := Ref.lib) None)
        (take n [red_line; number_line; ping_line]).
Proof.
  split; [reflexivity|].
  destruct (handler_output_follows_the_lines (L := Ref.lib) None
              [red_line; number_line; ping_line] Server.empty) as (n & H & _).
  exists n. exact H.
Defined.

Lemma non_object_ends_the_handler_witness :
  Server.carries_no_object (L := Ref.lib) number_line /\
  Server.handle (L := Ref.lib) None [red_line; number_line; ping_line] Server.empty
    = (Server.HandlerError,
       {| Server.wfile := [ok_ack]; Server._command_queue := [red_pair] |}).
Proof.
  assert (Hn : Server.carries_no_object (L := Ref.lib) number_line).
  { exists number_line, (VInt 5). repeat split; vm_compute; congruence. }
  split; [exact Hn|].
  change [red_line; number_line; ping_line] with ([red_line] ++ number_line :: [ping_line]).
  apply (non_object_ends_the_handler (L := Ref.lib) None [red_line] [ping_line]
           number_line Server.empty _ Hn).
  reflexivity.
Defined.

Lemma ping_and_unknown_enqueue_nothing_witness :
  Server.carries (L := Ref.lib) ping_line ping /\
  Server.handle_line (L := Ref.lib) None ping_line Server.empty
    = Server.Next {| Server.wfile := [pong_ack]; Server._command_queue := [] |}.
Proof.
  assert (Hc : Server.carries (L := Ref.lib) ping_line ping).
  { exists ping_line. repeat split; vm_compute; congruence. }
  split; [exact Hc|].
  destruct (ping_and_unknown_enqueue_nothing (L := Ref.lib) None ping_line ping
              Server.empty Hc eq_refl eq_refl eq_refl) as [H _].
  rewrite H. reflexivity.
Defined.


Lemma matching_token_is_transparent_witness :
  Server.carries (L := Ref.lib) token_ping_line token_ping /\
  Server.handle_line (L := Ref.lib) (Some "s3cret") token_ping_line Server.empty
    = Server.Next {| Server.wfile := [pong_ack]; Server._command_queue := [] |}.
Proof.
  split; [exists token_ping_line; repeat split; vm_compute; congruence|].
  rewrite (matching_token_is_transparent (L := Ref.lib) "s3cret" token_ping_line Server.empty).
  - reflexivity.
  - intros msg (text & Hd & _ & Hj).
    vm_compute in Hd. injection Hd as <-.
    vm_compute in Hj. injection Hj as <-. reflexivity.
Defined.

Lemma pair_request_round_trip_witness :
  Server.carries (L := Ref.lib) (Client.request_line (L := Ref.lib) " Interior" "Red " None)
    (Client.request " Interior" "Red " None) /\
  Server.handle_line (L := Ref.lib) None
    (Client.request_line (L := Ref.lib) " Interior" "Red " None) Server.empty
    = Server.Next {| Server.wfile := [ok_ack]; Server._command_queue := [red_pair] |} /\
  Executor.derived_name (L := Ref.lib) true red_pair = Some "Interior: Red".
Proof.
  assert (Hc : Server.carries (L := Ref.lib)
                 (Client.request_line (L := Ref.lib) " Interior" "Red " None)
                 (Client.request " Interior" "Red " None)).
  { eexists. repeat split; vm_compute; congruence. }
  split; [exact Hc|].
  destruct (pair_request_round_trip (L := Ref.lib) None None true " Interior" "Red "
              "127.0.0.1" 8888 Server.empty ok_ack Hc (or_introl eq_refl))
    as (H1 & _ & H3); try reflexivity.
  { vm_compute. congruence. }
  split; [rewrite H1; reflexivity|exact H3].
Defined.

Lemma empty_secret_rejects_the_client_witness :
  Server.carries (L := Ref.lib) (Client.request_line (L := Ref.lib) "Interior" "Red" (Some ""))
    (Client.request "Interior" "Red" (Some "")) /\
  Server.handle_line (L := Ref.lib) (Some "")
    (Client.request_line (L := Ref.lib) "Interior" "Red" (Some "")) Server.empty
    = Server.Next {| Server.wfile := [error_ack "unauthorized"];
                     Server._command_queue := [] |}.
Proof.
  assert (Hc : Server.carries (L := Ref.lib)
                 (Client.request_line (L := Ref.lib) "Interior" "Red" (Some ""))
                 (Client.request "Interior" "Red" (Some ""))).
  { eexists. repeat split; vm_compute; congruence. }
  split; [exact Hc|].
  rewrite (empty_secret_rejects_the_client (L := Ref.lib) (Some "") "Interior" "Red"
             Server.empty Hc).
  reflexivity.
Defined.

Lemma socket_is_closed_once_witness :
  last (Client.send_activate_vset (L := Ref.lib) "127.0.0.1" 8888 "Interior" "Red" None
          (Client.RecvFails Client.TimeoutError)).2 = Some Client.close.
Proof.
  destruct (socket_is_closed_once (L := Ref.lib) "127.0.0.1" 8888 "Interior" "Red" None
              (Client.RecvFails Client.TimeoutError)) as (used & _ & H & _).
  rewrite H. rewrite app_comm_cons, last_snoc. reflexivity.
Defined.

Lemma router_answers_from_the_catalog_witness :
  Router.get_command red_catalog unsure nearest_is_red "turn on red interior light"
    = Some (VList [VStr "Interior"; VStr "Red"], Some "activate red interior",
            Some (81 # 100)) /\
  Router.subscript red_catalog "activate red interior"
    = Some (VList [VStr "Interior"; VStr "Red"]).
Proof.
  split; [reflexivity|].
  destruct (router_answers_from_the_catalog red_catalog unsure nearest_is_red
              "turn on red interior light" _ _ _ eq_refl)
    as [Hno|(phrase & score & [= <-] & _ & H & _)]; [discriminate|exact H].
Defined.

Lemma classifier_hit_skips_the_search_witness :
  Router.get_command red_catalog sure out_of_range "red"
    = Some (VList [VStr "Interior"; VStr "Red"], Some "activate red interior",
            Some (80 # 100)).
Proof.
  destruct (classifier_hit_skips_the_search red_catalog sure nearest_is_red "red"
              "activate red interior" (80 # 100) eq_refl eq_refl eq_refl) as (v & Hv & H).
  rewrite (H out_of_range). vm_compute in Hv. injection Hv as <-. reflexivity.
Defined.

Lemma unknown_label_is_ignored_witness :
  Router.get_command red_catalog (fun _ => ("LABEL_1", 99 # 100)) nearest_is_red "red"
    = Router.get_command red_catalog unsure nearest_is_red "red".
Proof.
  apply (unknown_label_is_ignored red_catalog (fun _ => ("LABEL_1", 99 # 100)) unsure
           nearest_is_red "red"); reflexivity.
Defined.

Lemma nothing_is_dropped_within_capacity_witness :
  length (Audio.pushed trickle) <= Audio.maxsize /\
  Audio.drops (Audio.stderr (Audio.shared (Audio.run trickle Audio.initial))) = 0.
Proof.
  assert (H : length (Audio.pushed trickle) <= Audio.maxsize) by (vm_compute; lia).
  split; [exact H|].
  exact (proj2 (nothing_is_dropped_within_capacity trickle H)).
Defined.

Lemma only_an_empty_tail_is_an_empty_message_witness :
  In (Asr.AudioContent "")
     (Asr.request_stream 1 (fun _ _ => 0%Z) [Some "frame"] 16000 "en-US" (1 # 100000)) /\
  (0 < 1 # 100000)%Q.
Proof.
  assert (Hin : In (Asr.AudioContent "")
                  (Asr.request_stream 1 (fun _ _ => 0%Z) [Some "frame"] 16000 "en-US"
                     (1 # 100000))).
  { right; right; left. reflexivity. }
  split; [exact Hin|].
  destruct (only_an_empty_tail_is_an_empty_message 1 (fun _ _ => 0%Z) [Some "frame"]
              16000 "en-US" (1 # 100000)) as (_ & _ & H).
  exact (proj1 (H Hin)).
Defined.

Lemma transcribe_ignores_results_without_alternatives_witness :
  Asr.with_alternatives [{| Asr.alternatives := []; Asr.is_final := true |}] = [] /\
  (Asr.transcribe true (inr [{| Asr.alternatives := []; Asr.is_final := true |}])).1 = "".
Proof.
  split; [reflexivity|].
  destruct (transcribe_ignores_results_without_alternatives true
              [{| Asr.alternatives := []; Asr.is_final := true |}]) as (_ & H & _).
  exact (H eq_refl).
Defined.

Lemma skipped_transcripts_leave_no_trace_witness :
  Pipeline.skipped (L := Ref.lib) interim_red /\
  Pipeline.skipped (L := Ref.lib) final_blank /\
  Pipeline.loop (L := Ref.lib) true None red_catalog unsure nearest_is_red true refusing
    [interim_red; final_blank] Pipeline.initial
    = (Pipeline.Exhausted, Pipeline.initial).
Proof.
  assert (H1 : Pipeline.skipped (L := Ref.lib) interim_red) by (left; reflexivity).
  assert (H2 : Pipeline.skipped (L := Ref.lib) final_blank) by (right; reflexivity).
  split; [exact H1|]. split; [exact H2|].
  rewrite (proj2 (skipped_transcripts_leave_no_trace (L := Ref.lib) true None red_catalog
                    unsure nearest_is_red true refusing interim_red [final_blank]
                    Pipeline.initial H1)).
  rewrite (proj2 (skipped_transcripts_leave_no_trace (L := Ref.lib) true None red_catalog
                    unsure nearest_is_red true refusing final_blank []
                    Pipeline.initial H2)).
  reflexivity.
Defined.

Lemma one_decision_and_one_request_at_most_per_final_witness :
  (Pipeline.process_audio_stream (L := Ref.lib) false None red_catalog unsure nearest_is_red
     true refusing [interim_red; final_red; final_blank]).1 = Pipeline.Exhausted /\
  Pipeline.decisions
    (Pipeline.stdout
       (Pipeline.process_audio_stream (L := Ref.lib) false None red_catalog unsure
          nearest_is_red true refusing [interim_red; final_red; final_blank]).2)
  = length
      (Pipeline.finals
         (Pipeline.stdout
            (Pipeline.process_audio_stream (L := Ref.lib) false None red_catalog unsure
               nearest_is_red true refusing [interim_red; final_red; final_blank]).2)).
Proof.
  split; [reflexivity|].
  destruct (one_decision_and_one_request_at_most_per_final (L := Ref.lib) false None
              red_catalog unsure nearest_is_red true refusing
              [interim_red; final_red; final_blank]) as (_ & _ & _ & H).
  exact (H eq_refl).
Defined.

Lemma network_failure_ends_the_loop_witness :
  Pipeline.text_of (L := Ref.lib) final_red = Some "turn on red interior light" /\
  Pipeline.loop (L := Ref.lib) true None red_catalog unsure nearest_is_red true refusing
    [final_red; final_red] (Pipeline.say Pipeline.Starting Pipeline.initial)
  = (Pipeline.Escaped,
     {| Pipeline.stdout :=
          [Pipeline.Starting; Pipeline.Final "turn on red interior light";
           Pipeline.Matched (Some "activate red interior") (81 # 100)
             (VStr "Interior") (VStr "Red")];
        Pipeline.calls := [Client.create_connection "127.0.0.1" 8888];
        Pipeline.sent := 1 |}).
Proof.
  split; [reflexivity|].
  destruct (network_failure_ends_the_loop (L := Ref.lib) true None red_catalog unsure
              nearest_is_red true refusing final_red [final_red]
              (Pipeline.say Pipeline.Starting Pipeline.initial)
              "turn on red interior light" (VList [VStr "Interior"; VStr "Red"])
              (VStr "Interior") (VStr "Red") (Some "activate red interior") (81 # 100))
    as (H1 & H2 & H3); try reflexivity; try discriminate.
Defined.


End EvaluatedMore.
